(** * The vote ledger of app.py: blocks, hash chaining, persistence, tally

    A shallow embedding of the [Block] and [Blockchain] classes and of
    [get_vote_counts], followed by the properties the specification states
    about them.  The Streamlit page code is not modelled. *)

From Stdlib Require Import ZArith Lia Bool Ascii String List DecimalString OrdersEx.
From stdpp Require Import base option list strings gmap.
Import ListNotations.

#[local] Set Warnings "-register-all".

Local Open Scope string_scope.
Local Open Scope list_scope.

(** ** hashlib.sha256

    The digest is computed, not assumed: the function below is SHA-256 as
    FIPS 180-4 defines it, over the bytes of a string, with 32-bit words
    kept in [Z] and reduced after every addition. *)
Module SHA256.
Local Open Scope Z_scope.

Definition mask32 (x : Z) : Z := Z.land x 0xffffffff.
Definition add32 (x y : Z) : Z := mask32 (x + y).
Definition rotr (n x : Z) : Z :=
  Z.lor (Z.shiftr x n) (mask32 (Z.shiftl x (32 - n))).

Definition Ch (x y z : Z) : Z :=
  Z.lxor (Z.land x y) (Z.land (Z.lxor x 0xffffffff) z).
Definition Maj (x y z : Z) : Z :=
  Z.lxor (Z.lxor (Z.land x y) (Z.land x z)) (Z.land y z).
Definition bsig0 (x : Z) : Z := Z.lxor (Z.lxor (rotr 2 x) (rotr 13 x)) (rotr 22 x).
Definition bsig1 (x : Z) : Z := Z.lxor (Z.lxor (rotr 6 x) (rotr 11 x)) (rotr 25 x).
Definition ssig0 (x : Z) : Z := Z.lxor (Z.lxor (rotr 7 x) (rotr 18 x)) (Z.shiftr x 3).
Definition ssig1 (x : Z) : Z := Z.lxor (Z.lxor (rotr 17 x) (rotr 19 x)) (Z.shiftr x 10).

(** The first 64 primes. *)
Definition primes : list Z :=
  [
    2; 3; 5; 7; 11; 13; 17; 19; 23; 29; 31; 37; 41; 43; 47; 53;
    59; 61; 67; 71; 73; 79; 83; 89; 97; 101; 103; 107; 109; 113; 127; 131;
    137; 139; 149; 151; 157; 163; 167; 173; 179; 181; 191; 193; 197; 199; 211; 223;
    227; 229; 233; 239; 241; 251; 257; 263; 269; 271; 277; 281; 283; 293; 307; 311 ].

(** The largest [m] with [m ^ 3 <= x], one bit at a time from [bit] down. *)
Fixpoint cube_root (bit : nat) (x m : Z) : Z :=
  let m' := m + 2 ^ Z.of_nat bit in
  let m1 := if m' * m' * m' <=? x then m' else m in
  match bit with
  | O => m1
  | S bit' => cube_root bit' x m1
  end.

(** The round constants: the first 32 bits of the fractional part of the
    cube root of each prime. *)
Definition K : list Z :=
  Eval vm_compute in
    List.map (fun p => mask32 (cube_root 35 (p * 2 ^ 96) 0)) primes.

(** The initial hash value: the same with square roots, for eight primes. *)
Definition H0 : list Z :=
  Eval vm_compute in
    List.map (fun p => mask32 (Z.sqrt (p * 2 ^ 64))) (List.firstn 8 primes).

Definition bytes_of (s : string) : list Z :=
  List.map (fun c => Z.of_N (N_of_ascii c)) (list_ascii_of_string s).

(** Big-endian bytes of [x], [n] of them. *)
Fixpoint be_bytes (n : nat) (x : Z) : list Z :=
  match n with
  | O => []
  | S n' => Z.land (Z.shiftr x (8 * Z.of_nat n')) 0xff :: be_bytes n' x
  end.

(** Padding: one 0x80 byte, zero bytes up to 56 modulo 64, then the bit
    length of the message on eight bytes. *)
Definition pad (msg : list Z) : list Z :=
  let len := Z.of_nat (List.length msg) in
  let zeros := Z.to_nat ((55 - len) mod 64) in
  msg ++ [0x80] ++ List.repeat 0 zeros ++ be_bytes 8 (8 * len).

Fixpoint words_of (fuel : nat) (bs : list Z) : list Z :=
  match fuel, bs with
  | S fuel', b0 :: b1 :: b2 :: b3 :: rest =>
      (b0 * 16777216 + b1 * 65536 + b2 * 256 + b3) :: words_of fuel' rest
  | _, _ => []
  end.

(** The message schedule is grown with the newest word first. *)
Fixpoint extend (n : nat) (rev_w : list Z) : list Z :=
  match n with
  | O => rev_w
  | S n' =>
      let w2 := List.nth 1 rev_w 0 in
      let w7 := List.nth 6 rev_w 0 in
      let w15 := List.nth 14 rev_w 0 in
      let w16 := List.nth 15 rev_w 0 in
      extend n' (add32 (add32 (ssig1 w2) w7) (add32 (ssig0 w15) w16) :: rev_w)
  end.

Definition schedule (block : list Z) : list Z :=
  List.rev (extend 48 (List.rev block)).

Record regs := Regs { ra : Z; rb : Z; rc : Z; rd : Z; re : Z; rf : Z; rg : Z; rh : Z }.

Definition round (r : regs) (kw : Z * Z) : regs :=
  let t1 := add32 (add32 (add32 (rh r) (bsig1 (re r))) (Ch (re r) (rf r) (rg r)))
                  (add32 (fst kw) (snd kw)) in
  let t2 := add32 (bsig0 (ra r)) (Maj (ra r) (rb r) (rc r)) in
  Regs (add32 t1 t2) (ra r) (rb r) (rc r) (add32 (rd r) t1) (re r) (rf r) (rg r).

Definition regs_of (h : list Z) : regs :=
  Regs (List.nth 0 h 0) (List.nth 1 h 0) (List.nth 2 h 0) (List.nth 3 h 0)
       (List.nth 4 h 0) (List.nth 5 h 0) (List.nth 6 h 0) (List.nth 7 h 0).

Definition compress (h : list Z) (block : list Z) : list Z :=
  let r0 := regs_of h in
  let r := List.fold_left round (List.combine K (schedule block)) r0 in
  [ add32 (ra r0) (ra r); add32 (rb r0) (rb r); add32 (rc r0) (rc r);
    add32 (rd r0) (rd r); add32 (re r0) (re r); add32 (rf r0) (rf r);
    add32 (rg r0) (rg r); add32 (rh r0) (rh r) ].

Fixpoint blocks (fuel : nat) (h : list Z) (ws : list Z) : list Z :=
  match fuel with
  | O => h
  | S fuel' =>
      match ws with
      | [] => h
      | _ => blocks fuel' (compress h (List.firstn 16 ws)) (List.skipn 16 ws)
      end
  end.

Definition digest_words (s : string) : list Z :=
  let bs := pad (bytes_of s) in
  let ws := words_of (List.length bs) bs in
  blocks (List.length ws) H0 ws.

Definition hex_digit (d : Z) : ascii :=
  List.nth (Z.to_nat d)
    (list_ascii_of_string "0123456789abcdef") "0"%char.

Fixpoint hex_of (n : nat) (x : Z) : string :=
  match n with
  | O => EmptyString
  | S n' =>
      String (hex_digit (Z.land (Z.shiftr x (4 * Z.of_nat n')) 0xf)) (hex_of n' x)
  end.

(** [hashlib.sha256(s.encode()).hexdigest()]; a [string] here is the UTF-8
    text, so [encode] is the identity on it.  A [str] with a lone surrogate
    has no UTF-8 text: [encode] raises [UnicodeEncodeError] on it, and it has
    no counterpart among the strings of the model that are UTF-8. *)
Definition hexdigest (s : string) : string :=
  String.concat "" (List.map (hex_of 8) (digest_words s)).

End SHA256.

(** ** Python values

    The objects that flow through the ledger are the ones [json.load] can
    produce.  A float is identified by its [repr], the shortest decimal text
    that reads back as the same float: [str], the f-string of
    [calculate_hash] and [json.dump] all render a float with it, and the
    ledger never computes with one. *)
Record pyfloat := PyFloat { float_repr : string }.

Inductive json :=
| JNull
| JBool (b : bool)
| JInt (z : Z)
| JFloat (r : pyfloat)
| JStr (s : string)
| JList (items : list json)
| JDict (members : list (string * json)).

Definition dquote : ascii := "034"%char.
Definition squote : ascii := "'"%char.
Definition backslash : ascii := "\"%char.

Fixpoint occurs (c : ascii) (s : string) : bool :=
  match s with
  | EmptyString => false
  | String d s' => Ascii.eqb c d || occurs c s'
  end.

Definition hex_byte (n : nat) : string :=
  SHA256.hex_of 2 (Z.of_nat n).

(** How [repr] writes one character of a [str] between quotes [q]. *)
Definition repr_char (q c : ascii) : string :=
  let n := nat_of_ascii c in
  if Ascii.eqb c backslash then String backslash (String backslash "")
  else if Ascii.eqb c q then String backslash (String q "")
  else if Nat.eqb n 9 then String backslash "t"
  else if Nat.eqb n 10 then String backslash "n"
  else if Nat.eqb n 13 then String backslash "r"
  else if Nat.ltb n 32 || Nat.eqb n 127 then String backslash ("x" +:+ hex_byte n)
  else String c "".

Fixpoint repr_chars (q : ascii) (s : string) : string :=
  match s with
  | EmptyString => ""
  | String c s' => repr_char q c +:+ repr_chars q s'
  end.

(** [repr] of a [str]: single quotes, unless the text has a single quote
    and no double quote.  This is exact for ASCII text.  Bytes above 127 are
    kept as they are, which is what [repr] does for the printable characters
    beyond ASCII only: it escapes the others (U+00A0 is written [\xa0]), and
    the model does not follow it there.  [repr] of a [str] is reached only
    through a list or a dict. *)
Definition str_repr (s : string) : string :=
  let q := if occurs squote s && negb (occurs dquote s) then dquote else squote in
  String q (repr_chars q s +:+ String q "").

Definition int_str (z : Z) : string := NilZero.string_of_int (Z.to_int z).

Fixpoint py_repr (v : json) : string :=
  match v with
  | JNull => "None"
  | JBool true => "True"
  | JBool false => "False"
  | JInt z => int_str z
  | JFloat r => float_repr r
  | JStr s => str_repr s
  | JList items => "[" +:+ String.concat ", " (List.map py_repr items) +:+ "]"
  | JDict members =>
      "{" +:+ String.concat ", "
               (List.map (fun kv => match kv with
                                    | (k, x) => str_repr k +:+ ": " +:+ py_repr x
                                    end) members) +:+ "}"
  end.

(** What [f"{v}"] puts in the text: [str(v)], which is [repr(v)] except on
    a [str], written as it is. *)
Definition py_str (v : json) : string :=
  match v with
  | JStr s => s
  | _ => py_repr v
  end.

(** ** Exceptions and the state the program runs in *)
Inductive exn :=
| FileNotFoundError
| JSONDecodeError
| KeyError (key : string)
| TypeError
| IndexError
| UnicodeDecodeError
| ValueError
| RecursionError.

(** class Block *)
Record Block := mkBlock {
  index : json;
  timestamp : pyfloat;
  voter_hash : json;
  state : json;
  district : json;
  party : json;
  previous_hash : json;
  hash : string
}.

(** A file holds bytes; the model keeps what reading it and [json.load]
    make of them.  [Unparsable] is text that is not JSON ([JSONDecodeError]);
    [Document] is JSON, with the value [json.load] returns; [Undecodable] is
    bytes that are not text in the encoding of [open] ([UnicodeDecodeError]);
    [Oversized] is JSON with an integer of more digits than [int] converts
    ([ValueError]); [TooDeep] is JSON nested deeper than the parser recurses
    ([RecursionError]).  Every file can be opened and replaced: permissions
    are not modelled. *)
Inductive file :=
| Unparsable
| Document (doc : json)
| Undecodable
| Oversized
| TooDeep.

(** [chain] is [self.chain] of the one [Blockchain] object of the program,
    [wall] the successive readings of [time.time()], [ticks] how many of
    them were taken, [disk] the files by name. *)
Record World := mkWorld {
  chain : list Block;
  ticks : nat;
  wall : nat -> pyfloat;
  disk : gmap string file
}.

Definition set_chain (c : list Block) (w : World) : World :=
  mkWorld c (ticks w) (wall w) (disk w).
Definition set_ticks (n : nat) (w : World) : World :=
  mkWorld (chain w) n (wall w) (disk w).
Definition set_disk (d : gmap string file) (w : World) : World :=
  mkWorld (chain w) (ticks w) (wall w) d.

(** A statement either raises or yields a value, and leaves a world. *)
Definition M (A : Type) : Type := World -> (exn + A) * World.

Definition ret {A} (a : A) : M A := fun w => (inr a, w).
Definition bind {A B} (m : M A) (k : A -> M B) : M B :=
  fun w => match m w with
           | (inr a, w') => k a w'
           | (inl e, w') => (inl e, w')
           end.
Definition lift {A} (r : exn + A) : M A := fun w => (r, w).

Notation "'do' x <- m ; k" := (bind m (fun x => k))
  (at level 10, x name, m at level 100, k at level 200).
Notation "'exec' m ; k" := (bind m (fun _ => k))
  (at level 10, m at level 100, k at level 200).

(** [try: body except (FileNotFoundError, json.JSONDecodeError): handler];
    any other exception passes through. *)
Definition try_except_load {A} (body handler : M A) : M A :=
  fun w => match body w with
           | (inl FileNotFoundError, w') => handler w'
           | (inl JSONDecodeError, w') => handler w'
           | r => r
           end.

Definition get_chain : M (list Block) := fun w => (inr (chain w), w).
Definition put_chain (c : list Block) : M unit := fun w => (inr tt, set_chain c w).
(** [self.chain.append(b)] *)
Definition chain_append (b : Block) : M unit :=
  fun w => (inr tt, set_chain (chain w ++ [b]) w).

(** [time.time()] *)
Definition time_time : M pyfloat :=
  fun w => (inr (wall w (ticks w)), set_ticks (S (ticks w)) w).

(** ** Block *)
Definition calculate_hash (b : Block) : string :=
  let block_data :=
    py_str (index b) +:+ py_str (JFloat (timestamp b)) +:+ py_str (voter_hash b)
    +:+ py_str (state b) +:+ py_str (district b) +:+ py_str (party b)
    +:+ py_str (previous_hash b) in
  SHA256.hexdigest block_data.

Definition set_hash (h : string) (b : Block) : Block :=
  mkBlock (index b) (timestamp b) (voter_hash b) (state b) (district b)
          (party b) (previous_hash b) h.

(** The object [Block.__init__] leaves when the clock reads [now]: the hash
    is computed last, from the seven fields. *)
Definition block_at (now : pyfloat)
    (index voter_hash state district party previous_hash : json) : Block :=
  let self := mkBlock index now voter_hash state district party previous_hash "" in
  set_hash (calculate_hash self) self.

(** [Block.__init__]: the timestamp is the clock at construction, whatever
    the caller holds. *)
Definition Block_init (index voter_hash state district party previous_hash : json)
  : M Block :=
  do now <- time_time;
  ret (block_at now index voter_hash state district party previous_hash).

Definition to_dict (b : Block) : json :=
  JDict [ ("index", index b); ("timestamp", JFloat (timestamp b));
          ("voter_hash", voter_hash b); ("state", state b);
          ("district", district b); ("party", party b);
          ("previous_hash", previous_hash b); ("hash", JStr (hash b)) ].

(** ** Blockchain *)

(** [l[i]] on a Python list: a negative [i] counts from the end, and an
    index outside [-len, len) raises [IndexError]. *)
Definition py_index {A} (l : list A) (i : Z) : exn + A :=
  let n := Z.of_nat (length l) in
  let j := if (i <? 0)%Z then (n + i)%Z else i in
  if ((0 <=? j) && (j <? n))%Z
  then match l !! Z.to_nat j with
       | Some x => inr x
       | None => inl IndexError
       end
  else inl IndexError.

(** The block [create_genesis_block] constructs when the clock reads [now]. *)
Definition genesis_at (now : pyfloat) : Block :=
  block_at now (JInt 0) (JStr "GENESIS") (JStr "None") (JStr "None")
           (JStr "None") (JStr "0").

Definition create_genesis_block : M unit :=
  do genesis_block <-
    Block_init (JInt 0) (JStr "GENESIS") (JStr "None") (JStr "None")
               (JStr "None") (JStr "0");
  chain_append genesis_block.

(** [add_vote] has no [return] statement: the call yields [None], which is
    [None] of [option Block] here. *)
Definition add_vote (voter_id : string) (state district party : json)
  : M (option Block) :=
  do c <- get_chain;
  exec (if Nat.eqb (length c) 0 then create_genesis_block else ret tt);
  do c1 <- get_chain;
  do previous_block <- lift (py_index c1 (-1));
  let voter_hash := SHA256.hexdigest voter_id in
  do c2 <- get_chain;
  do new_block <-
    Block_init (JInt (Z.of_nat (length c2))) (JStr voter_hash) state district
               party (JStr (hash previous_block));
  exec chain_append new_block;
  ret None.

(** [a != h] where [h] is a [str]: an object that is not a [str] differs
    from every [str]. *)
Definition py_ne_str (a : json) (h : string) : bool :=
  match a with
  | JStr s => negb (String.eqb s h)
  | _ => true
  end.

(** The loop of [is_chain_valid], entered at [i] with [n] iterations of
    [range(1, len(self.chain))] left. *)
Fixpoint is_chain_valid_loop (c : list Block) (i : Z) (n : nat) : exn + bool :=
  match n with
  | O => inr true
  | S n' =>
      match py_index c i, py_index c (i - 1) with
      | inr current_block, inr previous_block =>
          if py_ne_str (previous_hash current_block) (hash previous_block)
          then inr false
          else is_chain_valid_loop c (i + 1) n'
      | inl e, _ => inl e
      | _, inl e => inl e
      end
  end.

Definition is_chain_valid (c : list Block) : exn + bool :=
  is_chain_valid_loop c 1 (length c - 1).

(** Whether the link between positions [i] and [i + 1] holds, as the loop
    tests it; positions outside the chain have no link to break. *)
Definition link_ok (c : list Block) (i : nat) : bool :=
  match c !! S i, c !! i with
  | Some current_block, Some previous_block =>
      negb (py_ne_str (previous_hash current_block) (hash previous_block))
  | _, _ => true
  end.

(** Every block names the stored hash of the
    block before it. *)
Definition linked (c : list Block) : Prop :=
  forall i cur prev, c !! S i = Some cur -> c !! i = Some prev ->
                     previous_hash cur = JStr (hash prev).

Definition default_filename : string := "blockchain.json".

(** [json.dump] of the blocks' dicts, then the file is replaced. *)
Definition save_chain (filename : string) : M unit :=
  fun w =>
    (inr tt,
     set_disk (<[filename := Document (JList (List.map to_dict (chain w)))]> (disk w)) w).

(** [open(filename, "r")] followed by [json.load]. *)
Definition read_json (filename : string) : M json :=
  fun w => match disk w !! filename with
           | None => (inl FileNotFoundError, w)
           | Some Unparsable => (inl JSONDecodeError, w)
           | Some (Document doc) => (inr doc, w)
           | Some Undecodable => (inl UnicodeDecodeError, w)
           | Some Oversized => (inl ValueError, w)
           | Some TooDeep => (inl RecursionError, w)
           end.

Fixpoint chars_of (s : string) : list json :=
  match s with
  | EmptyString => []
  | String c s' => JStr (String c "") :: chars_of s'
  end.

(** What [for x in v] goes through: the items of a list, the keys of a
    dict, the characters of a str; other values are not iterable. *)
Definition py_iter (v : json) : exn + list json :=
  match v with
  | JList items => inr items
  | JDict members => inr (List.map (fun kv => JStr (fst kv)) members)
  | JStr s => inr (chars_of s)
  | _ => inl TypeError
  end.

(** The members of a dict are kept in insertion order; their keys are
    distinct, as in any dict, and a lookup finds the one member of a key. *)
Fixpoint assoc (key : string) (members : list (string * json)) : option json :=
  match members with
  | [] => None
  | (k, x) :: rest => if String.eqb k key then Some x else assoc key rest
  end.

(** [v['key']] with a str key: a dict answers or raises [KeyError]; a list
    or a str wants an integer, and the rest cannot be subscripted. *)
Definition py_getitem (v : json) (key : string) : exn + json :=
  match v with
  | JDict members =>
      match assoc key members with
      | Some x => inr x
      | None => inl (KeyError key)
      end
  | _ => inl TypeError
  end.

Fixpoint for_each {A} (xs : list A) (body : A -> M unit) : M unit :=
  match xs with
  | [] => ret tt
  | x :: rest => exec body x; for_each rest body
  end.

(** The body of the loop of [load_chain]: the six arguments are looked up
    left to right, then the block is constructed and appended. *)
Definition load_block (block_data : json) : M unit :=
  do a_index <- lift (py_getitem block_data "index");
  do a_voter_hash <- lift (py_getitem block_data "voter_hash");
  do a_state <- lift (py_getitem block_data "state");
  do a_district <- lift (py_getitem block_data "district");
  do a_party <- lift (py_getitem block_data "party");
  do a_previous_hash <- lift (py_getitem block_data "previous_hash");
  do block <- Block_init a_index a_voter_hash a_state a_district a_party
                         a_previous_hash;
  chain_append block.

Definition load_chain (filename : string) : M unit :=
  exec try_except_load
    (do chain_data <- read_json filename;
     exec put_chain [];
     do records <- lift (py_iter chain_data);
     for_each records load_block)
    create_genesis_block;
  do c <- get_chain;
  if Nat.eqb (length c) 0 then create_genesis_block else ret tt.

(** The keys [load_chain] reads from a record, in the order it reads them. *)
Definition required_fields : list string :=
  ["index"; "voter_hash"; "state"; "district"; "party"; "previous_hash"].

Definition has_field (members : list (string * json)) (k : string) : bool :=
  match assoc k members with
  | Some _ => true
  | None => false
  end.

(** A record [load_chain] can read: a dict with the six keys. *)
Definition complete (r : json) : bool :=
  match r with
  | JDict members => forallb (has_field members) required_fields
  | _ => false
  end.

Definition first_missing (members : list (string * json)) : option string :=
  List.find (fun k => negb (has_field members k)) required_fields.

Definition field (r : json) (k : string) : json :=
  match py_getitem r k with
  | inr x => x
  | inl _ => JNull
  end.

(** The block [load_chain] constructs from a complete record when the
    clock reads [now]: the record's timestamp and hash are not read. *)
Definition block_of_record (now : pyfloat) (r : json) : Block :=
  block_at now (field r "index") (field r "voter_hash") (field r "state")
           (field r "district") (field r "party") (field r "previous_hash").

(** The blocks constructed from records [rs], the first at reading [t]. *)
Fixpoint rebuilt (wall : nat -> pyfloat) (t : nat) (rs : list json) : list Block :=
  match rs with
  | [] => []
  | r :: rest => block_of_record (wall t) r :: rebuilt wall (S t) rest
  end.

(** [Blockchain.__init__] *)
Definition Blockchain_init : M unit :=
  exec put_chain [];
  load_chain default_filename.

(** A vote as the page hands it to [add_vote]. *)
Definition vote : Type := string * json * json * json.

(** One [add_vote] call per vote, in order. *)
Definition add_votes (vs : list vote) : M unit :=
  for_each vs (fun v => match v with
                        | (voter_id, s, d, p) => exec add_vote voter_id s d p; ret tt
                        end).

(** Every block carries its position as its index. *)
Definition indexed (c : list Block) : Prop :=
  forall i b, c !! i = Some b -> index b = JInt (Z.of_nat i).

(** ** get_vote_counts *)

(** [x > 0] for a float, read off its [repr]: a negative float starts with
    a minus sign, and zero and NaN are the two other floats not above 0. *)
Definition float_gt0 (r : pyfloat) : bool :=
  let s := float_repr r in
  negb (String.prefix "-" s) && negb (String.eqb s "0.0")
  && negb (String.eqb s "nan").

(** [v > 0]: numbers compare (a bool is the int 0 or 1), anything else
    against an int raises [TypeError]. *)
Definition py_gt0 (v : json) : exn + bool :=
  match v with
  | JInt z => inr (0 <? z)%Z
  | JBool b => inr b
  | JFloat r => inr (float_gt0 r)
  | _ => inl TypeError
  end.

(** [[vars(block) for block in blockchain.chain if block.index > 0]] *)
Fixpoint vote_blocks (c : list Block) : exn + list Block :=
  match c with
  | [] => inr []
  | b :: rest =>
      match py_gt0 (index b) with
      | inl e => inl e
      | inr keep =>
          match vote_blocks rest with
          | inl e => inl e
          | inr bs => inr (if keep then b :: bs else bs)
          end
      end
  end.

Definition key : Type := string * string * string.

Definition text_of (v : json) : option string :=
  match v with
  | JStr s => Some s
  | _ => None
  end.

(** The group key of a row, when its three columns hold text. *)
Definition key_of (b : Block) : option key :=
  match text_of (state b), text_of (district b), text_of (party b) with
  | Some s, Some d, Some p => Some (s, d, p)
  | _, _, _ => None
  end.

Fixpoint keys_of (bs : list Block) : option (list key) :=
  match bs with
  | [] => Some []
  | b :: rest =>
      match key_of b, keys_of rest with
      | Some k, Some ks => Some (k :: ks)
      | _, _ => None
      end
  end.

(** Keys are ordered column by column, each column as Python orders str. *)
Definition key_compare (a b : key) : comparison :=
  match a, b with
  | (s1, d1, p1), (s2, d2, p2) =>
      match String.compare s1 s2 with
      | Eq => match String.compare d1 d2 with
              | Eq => String.compare p1 p2
              | o => o
              end
      | o => o
      end
  end.

(** One more member for the group of [k], in a table kept in key order. *)
Fixpoint bump (k : key) (table : list (key * nat)) : list (key * nat) :=
  match table with
  | [] => [(k, 1)]
  | (k', n) :: rest =>
      match key_compare k k' with
      | Eq => (k', S n) :: rest
      | Lt => (k, 1) :: table
      | Gt => (k', n) :: bump k rest
      end
  end.

(** [groupby(keys).size()] with the default [sort=True]: one row per
    distinct key, in key order, with the number of members. *)
Definition groupby_size (ks : list key) : list (key * nat) :=
  List.fold_right bump [] ks.

Record DataFrame := mkFrame {
  columns : list string;
  rows : list (key * nat)
}.

(** Group keys that are not text (a number, [None], a list read from a
    file written by hand) are treated by pandas in ways this model does not
    follow: it leaves out the rows with a [None] key and raises on a list.
    [NotText] marks these chains: it says that the model has no answer, not
    what the code answers. *)
Inductive tally :=
| Raised (e : exn)
| Frame (df : DataFrame)
| NotText.

Definition get_vote_counts (c : list Block) : tally :=
  match vote_blocks c with
  | inl e => Raised e
  | inr [] => Frame (mkFrame ["State"; "District"; "Party"; "Votes"] [])
  | inr df =>
      match keys_of df with
      | Some ks => Frame (mkFrame ["state"; "district"; "party"; "Votes"]
                                  (groupby_size ks))
      | None => NotText
      end
  end.

(** Vocabulary for stating what the table holds. *)
Definition same_key (a b : key) : bool :=
  match key_compare a b with
  | Eq => true
  | _ => false
  end.

Definition key_lt (a b : key) : Prop := key_compare a b = Lt.

(** The blocks the comprehension keeps. *)
Definition is_vote (b : Block) : bool :=
  match py_gt0 (index b) with
  | inr true => true
  | _ => false
  end.

Definition in_group (k : key) (b : Block) : bool :=
  match key_of b with
  | Some k' => same_key k k'
  | None => false
  end.

(** The count a table gives for key [k]. *)
Fixpoint votes_for (k : key) (table : list (key * nat)) : nat :=
  match table with
  | [] => 0
  | (k', n) :: rest => (if same_key k k' then n else 0) + votes_for k rest
  end.

(** Rows in strictly increasing key order, each with a positive count. *)
Fixpoint ascending (table : list (key * nat)) : Prop :=
  match table with
  | [] => True
  | (k, n) :: rest =>
      0 < n /\ (forall k' n', In (k', n') rest -> key_lt k k') /\ ascending rest
  end.

(** ** Running the program on a concrete machine *)

(** A clock that advances by one second per reading. *)
Definition second_clock (k : nat) : pyfloat :=
  PyFloat (int_str (1700000000 + Z.of_nat k) +:+ ".25").

(** A machine with no ledger object yet and no file. *)
Definition blank : World := mkWorld [] 0 second_clock ∅.

(** The machine after the first visit: a fresh ledger, one vote, saved. *)
Definition first_vote : M unit :=
  exec Blockchain_init;
  exec add_vote "voterA" (JStr "Kerala") (JStr "Ernakulam") (JStr "LDF");
  save_chain default_filename.

(** A chain whose second block had its party rewritten after it was made. *)
Definition edited_chain : list Block :=
  let g := genesis_at (second_clock 0) in
  [ g;
    set_hash (hash (block_at (second_clock 1) (JInt 1) (JStr "ab") (JStr "Kerala")
                      (JStr "Ernakulam") (JStr "LDF") (JStr (hash g))))
             (mkBlock (JInt 1) (second_clock 1) (JStr "ab") (JStr "Kerala")
                      (JStr "Ernakulam") (JStr "UDF") (JStr (hash g)) "") ].

(** The records of a ledger with one vote, as [save_chain] writes them. *)
Definition saved_records : list json :=
  let g := genesis_at (second_clock 0) in
  [ to_dict g;
    to_dict (block_at (second_clock 1) (JInt 1) (JStr (SHA256.hexdigest "voterA"))
               (JStr "Kerala") (JStr "Ernakulam") (JStr "LDF") (JStr (hash g))) ].

(** A record of a second vote that lost its party. *)
Definition record_without_party : list (string * json) :=
  [ ("index", JInt 2); ("timestamp", JFloat (second_clock 2));
    ("voter_hash", JStr (SHA256.hexdigest "voterB"));
    ("state", JStr "Kerala"); ("district", JStr "Ernakulam");
    ("previous_hash", JStr "ab"); ("hash", JStr "cd") ].

(** A machine whose file lost the party of its last record. *)
Definition damaged : World :=
  mkWorld [] 0 second_clock
    {[ default_filename :=
         Document (JList (saved_records ++ [JDict record_without_party])) ]}.

(** A machine whose file holds bytes that are not text. *)
Definition garbled : World :=
  mkWorld [] 0 second_clock {[ default_filename := Undecodable ]}.

(** The ledger of the tally example: genesis and three votes. *)
Definition three_votes : M unit :=
  exec Blockchain_init;
  add_votes [ ("voterA", JStr "Kerala", JStr "Ernakulam", JStr "LDF");
              ("voterB", JStr "Kerala", JStr "Ernakulam", JStr "LDF");
              ("voterC", JStr "Tamil Nadu", JStr "Chennai", JStr "BJP") ].

Definition run {A} (m : M A) (w : World) : World := snd (m w).
Definition outcome {A} (m : M A) (w : World) : exn + A := fst (m w).

(** ** save_vote and the tables of the page *)

(** The program with its standard output: [print] adds a line. *)
Record Process := mkProcess {
  machine : World;
  stdout : list string
}.

(** [save_vote]: the vote goes to the one ledger of the program, the
    ledger is written to the default file, and a line is printed. *)
Definition save_vote (voter_name unique_id : string) (state district party : json)
    (p : Process) : (exn + unit) * Process :=
  match add_vote unique_id state district party (machine p) with
  | (inl e, w1) => (inl e, mkProcess w1 (stdout p))
  | (inr _, w1) =>
      match save_chain default_filename w1 with
      | (inl e, w2) => (inl e, mkProcess w2 (stdout p))
      | (inr _, w2) =>
          (inr tt,
           mkProcess w2
             (stdout p ++ ["Vote added: " +:+ voter_name +:+ " voted for "
                           +:+ py_str party +:+ " in " +:+ py_str district
                           +:+ ", " +:+ py_str state +:+ "."]))
      end
  end.

(** A candidate entry [{"party": ..., "image": ...}]. *)
Record candidate := mkCandidate {
  candidate_party : string;
  candidate_image : string
}.

(** An entry [{"state": ..., "district": ...}] of [unique_id_mapping]. *)
Record residence := mkResidence {
  residence_state : string;
  residence_district : string
}.

Definition voting_data : gmap string (gmap string (list candidate)) :=
  list_to_map
    [ ("Kerala",
       list_to_map
         [ ("Thiruvananthapuram",
            [ mkCandidate "LDF" "Dustin_Henderson.webp";
              mkCandidate "UDF" "Eddie_Munson.webp";
              mkCandidate "BJP" "Eleven_-_The_Piggyback.webp" ]);
           ("Ernakulam",
            [ mkCandidate "LDF" "Erica_Sinclair_-_S4.webp";
              mkCandidate "UDF" "Jim_Hopper_S2.webp";
              mkCandidate "BJP" "Lucas_S4.webp" ]) ]);
      ("Tamil Nadu",
       list_to_map
         [ ("Chennai",
            [ mkCandidate "DMK" "Max_-_Season_4.webp";
              mkCandidate "AIADMK" "Mike_Wheeler_S3.webp";
              mkCandidate "BJP" "Nancy_S2_alt.webp" ]);
           ("Coimbatore",
            [ mkCandidate "DMK" "Steve_-_Season_4.webp";
              mkCandidate "AIADMK" "Vecna_S4.webp";
              mkCandidate "BJP" "Will_in_California.webp" ]) ]) ].

Definition unique_id_mapping : gmap string residence :=
  list_to_map
    [ ("12345", mkResidence "Kerala" "Thiruvananthapuram");
      ("67890", mkResidence "Kerala" "Ernakulam");
      ("11111", mkResidence "Tamil Nadu" "Chennai");
      ("22222", mkResidence "Tamil Nadu" "Coimbatore") ].

(** What the lookups of the page can raise. *)
Inductive lookup_error :=
| NoKey (key : string)
| StopIteration.

(** [d[k]] on a dict with str keys. *)
Definition dict_get {V} (d : gmap string V) (k : string) : lookup_error + V :=
  match d !! k with
  | Some v => inr v
  | None => inl (NoKey k)
  end.

(** [unique_id and unique_id in unique_id_mapping] *)
Definition recognised (unique_id : string) : bool :=
  negb (String.eqb unique_id "")
  && match unique_id_mapping !! unique_id with
     | Some _ => true
     | None => false
     end.

(** [voting_data[state][district]] for the state and district that
    [unique_id_mapping[unique_id]] names. *)
Definition candidates_for (unique_id : string) : lookup_error + list candidate :=
  match dict_get unique_id_mapping unique_id with
  | inl e => inl e
  | inr home =>
      match dict_get voting_data (residence_state home) with
      | inl e => inl e
      | inr districts => dict_get districts (residence_district home)
      end
  end.

(** The options of the radio: [[candidate["party"] for candidate in candidates]] *)
Definition party_options (candidates : list candidate) : list string :=
  List.map candidate_party candidates.

(** [next(candidate for candidate in candidates if candidate["party"] == party)] *)
Definition selected_candidate (candidates : list candidate) (party : string)
  : lookup_error + candidate :=
  match List.find (fun c => String.eqb (candidate_party c) party) candidates with
  | Some c => inr c
  | None => inl StopIteration
  end.

(** ** Vocabulary for the further properties *)

(** The stored hash of a block is the hash of its fields. *)
Definition self_hashed (b : Block) : Prop := hash b = calculate_hash b.

(** The fields the tally reads. *)
Definition tally_fields (b : Block) : json * json * json * json :=
  (index b, state b, district b, party b).

(** The arguments [load_chain] hands to [Block]. *)
Definition constructor_fields (b : Block) : json * json * json * json * json * json :=
  (index b, voter_hash b, state b, district b, party b, previous_hash b).

(** Values that compare with an int. *)
Definition is_number (v : json) : bool :=
  match v with
  | JInt _ | JBool _ | JFloat _ => true
  | _ => false
  end.

(** A block as the constructor leaves it: self-hashed, with a digest of
    64 characters as its hash. *)
Definition constructed (b : Block) : Prop :=
  self_hashed b /\ String.length (hash b) = 64.

(** [w'] comes from [w] by constructing blocks and appending them: one
    clock reading per block, the earlier blocks and the files as they were. *)
Definition extends (w w' : World) : Prop :=
  exists bs,
    chain w' = chain w ++ bs
    /\ Forall constructed bs
    /\ ticks w' = ticks w + length bs
    /\ wall w' = wall w
    /\ disk w' = disk w.

(** The states of the program: the ledger is constructed without an
    exception, then votes are added, the ledger is saved, or the script runs
    again and constructs the ledger anew. *)
Inductive reachable : World -> Prop :=
| reach_start w :
    outcome Blockchain_init w = inr tt -> reachable (run Blockchain_init w)
| reach_vote w voter_id s d p :
    reachable w -> reachable (run (add_vote voter_id s d p) w)
| reach_save w :
    reachable w -> reachable (run (save_chain default_filename) w)
| reach_rerun w :
    reachable w -> outcome Blockchain_init w = inr tt ->
    reachable (run Blockchain_init w).

(** A document [load_chain] cannot go through: a value that is not
    iterable, or whose first item is not a dict.  The empty list, the empty
    dict and the empty str have no first item. *)
Definition unreadable (doc : json) : bool :=
  match doc with
  | JList [] => false
  | JList (JDict _ :: _) => false
  | JList (_ :: _) => true
  | JDict [] => false
  | JDict (_ :: _) => true
  | JStr EmptyString => false
  | JStr (String _ _) => true
  | JNull | JBool _ | JInt _ | JFloat _ => true
  end.

(** What [load_chain] reads of a record. *)
Definition read_fields (r : json) : list json :=
  List.map (field r) required_fields.

(** The state, district and party of the block are text. *)
Definition has_text_key (b : Block) : bool :=
  match key_of b with
  | Some _ => true
  | None => false
  end.

Definition between (lo hi : nat) (c : ascii) : bool :=
  Nat.leb lo (nat_of_ascii c) && Nat.leb (nat_of_ascii c) hi.

(** The strings that are the UTF-8 text of a [str]: each character on one
    to four bytes, in its shortest form, none of them a surrogate (these
    would start with byte 237 followed by 160 or more) and none beyond
    U+10FFFF.  On the [str] they stand for, [encode] raises nothing. *)
Fixpoint utf8 (s : string) : bool :=
  match s with
  | EmptyString => true
  | String c0 s1 =>
      if between 0 127 c0 then utf8 s1
      else
        match s1 with
        | EmptyString => false
        | String c1 s2 =>
            if between 194 223 c0 then between 128 191 c1 && utf8 s2
            else
              match s2 with
              | EmptyString => false
              | String c2 s3 =>
                  if between 224 239 c0 then
                    (if between 224 224 c0 then between 160 191 c1
                     else if between 237 237 c0 then between 128 159 c1
                     else between 128 191 c1)
                    && between 128 191 c2 && utf8 s3
                  else
                    match s3 with
                    | EmptyString => false
                    | String c3 s4 =>
                        between 240 244 c0
                        && (if between 240 240 c0 then between 144 191 c1
                            else if between 244 244 c0 then between 128 143 c1
                            else between 128 191 c1)
                        && between 128 191 c2 && between 128 191 c3 && utf8 s4
                    end
              end
        end
  end.

(** The values that [str] writes exactly as [py_str] does and that
    [encode] accepts: numbers, [None], and text that is UTF-8.  A list or a
    dict is left out, because [str] writes the text inside it with [repr]. *)
Definition plain (v : json) : bool :=
  match v with
  | JStr s => utf8 s
  | JList _ | JDict _ => false
  | JNull | JBool _ | JInt _ | JFloat _ => true
  end.

(** * Properties *)

(** ** The digest agrees with the published test vectors *)
Example sha256_empty :
  SHA256.hexdigest "" =
  "e3b0c44298fc1c149afbf4c8996fb92427ae41e4649b934ca495991b7852b855".
Proof. vm_compute. reflexivity. Qed.

Example sha256_abc :
  SHA256.hexdigest "abc" =
  "ba7816bf8f01cfea414140de5dae2223b00361a396177a9cb410ff61f20015ad".
Proof. vm_compute. reflexivity. Qed.

Example sha256_two_blocks :
  SHA256.hexdigest "abcdbcdecdefdefgefghfghighijhijkijkljklmklmnlmnomnopnopq" =
  "248d6a61d20638b8e5c026930c3e6039a33ce45964ff2167f6ecedd419db06c1".
Proof. vm_compute. reflexivity. Qed.


(** ** Running statements *)

#[local] Opaque SHA256.hexdigest.

Lemma Block_init_run i v s d p ph w :
  Block_init i v s d p ph w
  = (inr (block_at (wall w (ticks w)) i v s d p ph), set_ticks (S (ticks w)) w).
Proof. reflexivity. Qed.

Lemma create_genesis_block_run w :
  create_genesis_block w
  = (inr tt,
     mkWorld (chain w ++ [genesis_at (wall w (ticks w))])
             (S (ticks w)) (wall w) (disk w)).
Proof. reflexivity. Qed.

Lemma py_index_nat {A} (l : list A) (i : nat) (x : A) :
  l !! i = Some x -> py_index l (Z.of_nat i) = inr x.
Proof.
  intros H. unfold py_index.
  assert (i < length l) by (eapply lookup_lt_Some; eassumption).
  replace (Z.of_nat i <? 0)%Z with false by (symmetry; apply Z.ltb_ge; lia).
  replace ((0 <=? Z.of_nat i) && (Z.of_nat i <? Z.of_nat (length l)))%Z with true.
  - rewrite Nat2Z.id, H. reflexivity.
  - symmetry. apply andb_true_iff. split; [apply Z.leb_le | apply Z.ltb_lt]; lia.
Qed.

Lemma py_index_last {A} (l : list A) (x : A) :
  last l = Some x -> py_index l (-1) = inr x.
Proof.
  intros H. rewrite last_lookup in H.
  assert (Hlt : Nat.pred (length l) < length l) by (eapply lookup_lt_Some; eassumption).
  unfold py_index. cbn [Z.ltb Z.compare].
  replace ((0 <=? Z.of_nat (length l) + -1) && (Z.of_nat (length l) + -1 <? Z.of_nat (length l)))%Z
    with true.
  - replace (Z.to_nat (Z.of_nat (length l) + -1)) with (Nat.pred (length l)) by lia.
    rewrite H. reflexivity.
  - symmetry. apply andb_true_iff. split; [apply Z.leb_le | apply Z.ltb_lt]; lia.
Qed.

(** The block [add_vote] constructs on a chain [c] whose last block is
    [prev], when the clock reads [now]. *)
Lemma add_vote_run w voter s d p prev :
  last (chain w) = Some prev ->
  add_vote voter s d p w
  = (inr None,
     mkWorld (chain w ++ [block_at (wall w (ticks w))
                            (JInt (Z.of_nat (length (chain w))))
                            (JStr (SHA256.hexdigest voter)) s d p
                            (JStr (hash prev))])
             (S (ticks w)) (wall w) (disk w)).
Proof.
  intros Hlast. unfold add_vote, bind, get_chain.
  assert (Hlen : Nat.eqb (length (chain w)) 0 = false).
  { destruct (chain w); [discriminate | reflexivity]. }
  rewrite Hlen. cbn [ret]. unfold lift.
  rewrite (py_index_last _ _ Hlast), Block_init_run. reflexivity.
Qed.

Lemma add_vote_run_empty w voter s d p :
  chain w = [] ->
  add_vote voter s d p w
  = (inr None,
     mkWorld [genesis_at (wall w (ticks w));
              block_at (wall w (S (ticks w))) (JInt 1)
                (JStr (SHA256.hexdigest voter)) s d p
                (JStr (hash (genesis_at (wall w (ticks w)))))]
             (S (S (ticks w))) (wall w) (disk w)).
Proof.
  intros Hc. unfold add_vote, bind, get_chain. rewrite Hc.
  cbn [length Nat.eqb]. rewrite create_genesis_block_run, Hc. reflexivity.
Qed.

(** ** The validity loop *)

Lemma py_ne_str_false a h : py_ne_str a h = false <-> a = JStr h.
Proof.
  destruct a; cbn; try (split; [discriminate | intros E; discriminate E]).
  rewrite negb_false_iff, String.eqb_eq. split; congruence.
Qed.

Lemma link_ok_true c i :
  link_ok c i = true <->
  forall cur prev, c !! S i = Some cur -> c !! i = Some prev ->
                   previous_hash cur = JStr (hash prev).
Proof.
  unfold link_ok. split.
  - intros H cur prev Hc Hp. rewrite Hc, Hp in H.
    apply py_ne_str_false. apply negb_true_iff. exact H.
  - intros H. destruct (c !! S i) as [cur|]; [|reflexivity].
    destruct (c !! i) as [prev|]; [|reflexivity].
    apply negb_true_iff, py_ne_str_false. apply H; reflexivity.
Qed.

(** Entered at [k + 1] with [n] iterations left inside the chain, the loop
    raises nothing and answers the conjunction of the [n] link tests. *)
Lemma is_chain_valid_loop_forallb c : forall n k,
  S k + n <= length c ->
  is_chain_valid_loop c (Z.of_nat (S k)) n = inr (forallb (link_ok c) (seq k n)).
Proof.
  induction n as [|n IH]; intros k Hk; [reflexivity|].
  destruct (lookup_lt_is_Some_2 c (S k)) as [cur Hcur]; [lia|].
  destruct (lookup_lt_is_Some_2 c k) as [prev Hprev]; [lia|].
  cbn [is_chain_valid_loop seq forallb].
  rewrite (py_index_nat _ _ _ Hcur).
  replace (Z.of_nat (S k) - 1)%Z with (Z.of_nat k) by lia.
  rewrite (py_index_nat _ _ _ Hprev).
  unfold link_ok at 1. rewrite Hcur, Hprev.
  destruct (py_ne_str (previous_hash cur) (hash prev)); cbn [negb andb]; [reflexivity|].
  replace (Z.of_nat (S k) + 1)%Z with (Z.of_nat (S (S k))) by lia.
  apply IH. lia.
Qed.

Lemma is_chain_valid_forallb c :
  is_chain_valid c = inr (forallb (link_ok c) (seq 0 (length c - 1))).
Proof.
  destruct c as [|b c]; [reflexivity|].
  unfold is_chain_valid. change 1%Z with (Z.of_nat 1).
  apply is_chain_valid_loop_forallb. cbn [length]. lia.
Qed.

Lemma is_chain_valid_linked c : is_chain_valid c = inr true <-> linked c.
Proof.
  rewrite is_chain_valid_forallb. split.
  - intros H i cur prev Hc Hp. injection H as H.
    rewrite forallb_forall in H.
    assert (Hi : S i < length c) by (eapply lookup_lt_Some; eassumption).
    specialize (H i). rewrite in_seq in H.
    apply (proj1 (link_ok_true c i)); [apply H; lia | assumption | assumption].
  - intros H. f_equal. apply forallb_forall. intros i _.
    apply link_ok_true. intros cur prev. apply H.
Qed.

Lemma linked_snoc c last_block b :
  linked c -> last c = Some last_block ->
  previous_hash b = JStr (hash last_block) -> linked (c ++ [b]).
Proof.
  intros Hc Hlast Hb i cur prev Hcur Hprev.
  rewrite last_lookup in Hlast.
  assert (Hlen : 0 < length c).
  { destruct c; [discriminate | cbn; lia]. }
  destruct (decide (S i < length c)) as [Hlt|Hge].
  - rewrite lookup_app_l in Hcur by lia. rewrite lookup_app_l in Hprev by lia.
    eapply Hc; eassumption.
  - assert (Hi : S i = length c).
    { apply lookup_lt_Some in Hcur. rewrite length_app in Hcur. cbn in Hcur. lia. }
    rewrite lookup_app_r in Hcur by lia.
    replace (S i - length c) with 0 in Hcur by lia. cbn in Hcur.
    rewrite lookup_app_l in Hprev by lia.
    replace i with (Nat.pred (length c)) in Hprev by lia.
    congruence.
Qed.

Lemma linked_single b : linked [b].
Proof. intros i cur prev Hcur. destruct i; discriminate Hcur. Qed.

(** ** Construction and growth *)

Lemma indexed_snoc c b :
  indexed c -> index b = JInt (Z.of_nat (length c)) -> indexed (c ++ [b]).
Proof.
  intros Hc Hb i x Hx.
  destruct (decide (i < length c)) as [Hlt|Hge].
  - rewrite lookup_app_l in Hx by lia. apply Hc. assumption.
  - assert (Hi : i = length c).
    { apply lookup_lt_Some in Hx. rewrite length_app in Hx. cbn in Hx. lia. }
    subst i. rewrite lookup_app_r in Hx by lia.
    rewrite Nat.sub_diag in Hx. cbn in Hx. congruence.
Qed.

Lemma nonempty_last {A} (l : list A) : l <> [] -> exists x, last l = Some x.
Proof.
  intros H. destruct (last l) as [x|] eqn:E; [eauto|].
  apply last_None in E. contradiction.
Qed.

Lemma add_votes_step voter s d p vs w prev :
  last (chain w) = Some prev ->
  add_votes ((voter, s, d, p) :: vs) w
  = add_votes vs
      (mkWorld (chain w ++ [block_at (wall w (ticks w))
                              (JInt (Z.of_nat (length (chain w))))
                              (JStr (SHA256.hexdigest voter)) s d p
                              (JStr (hash prev))])
               (S (ticks w)) (wall w) (disk w)).
Proof.
  intros Hprev. unfold add_votes. cbn [for_each]. unfold bind.
  rewrite (add_vote_run _ _ _ _ _ _ Hprev). reflexivity.
Qed.

(** A run of [add_votes] on a chain that is not empty never raises, adds
    one block per vote, and keeps the chain indexed and linked. *)
Lemma add_votes_run : forall vs w,
  chain w <> [] -> indexed (chain w) -> linked (chain w) ->
  outcome (add_votes vs) w = inr tt
  /\ length (chain (run (add_votes vs) w)) = length (chain w) + length vs
  /\ indexed (chain (run (add_votes vs) w))
  /\ linked (chain (run (add_votes vs) w)).
Proof.
  unfold outcome, run.
  induction vs as [|[[[voter s] d] p] vs IH]; intros w Hne Hidx Hlnk.
  - cbn. rewrite Nat.add_0_r. auto.
  - destruct (nonempty_last _ Hne) as [prev Hprev].
    rewrite (add_votes_step _ _ _ _ _ _ _ Hprev).
    match goal with |- context [add_votes vs ?w1] => specialize (IH w1) end.
    cbn [chain] in IH.
    destruct IH as (Hout & Hlen & Hi & Hl).
    + intros E. apply app_eq_nil in E. destruct E; discriminate.
    + apply indexed_snoc; [assumption | reflexivity].
    + eapply linked_snoc; [eassumption | eassumption | reflexivity].
    + rewrite Hout, Hlen, length_app. cbn [length].
      repeat split; [lia | assumption | assumption].
Qed.

(** What [Blockchain()] leaves when there is nothing to load. *)
Lemma Blockchain_init_fallback w :
  (disk w !! default_filename = None
   \/ disk w !! default_filename = Some Unparsable
   \/ exists doc, disk w !! default_filename = Some (Document doc)
                  /\ py_iter doc = inr []) ->
  Blockchain_init w
  = (inr tt, mkWorld [genesis_at (wall w (ticks w))] (S (ticks w)) (wall w) (disk w)).
Proof.
  unfold Blockchain_init, load_chain, bind, put_chain, try_except_load, read_json.
  cbn [disk set_chain].
  intros [H | [H | (doc & H & Hit)]]; rewrite H.
  - reflexivity.
  - reflexivity.
  - unfold lift. rewrite Hit. reflexivity.
Qed.

(** C7: a ledger constructed where there is no file holds exactly one block,
    the genesis block, with index 0, voter hash "GENESIS" and previous hash
    "0", and [is_chain_valid] answers true on it. *)
Theorem fresh_ledger_is_genesis (w : World) :
  disk w !! default_filename = None ->
  outcome Blockchain_init w = inr tt
  /\ exists g, chain (run Blockchain_init w) = [g]
       /\ index g = JInt 0
       /\ voter_hash g = JStr "GENESIS"
       /\ previous_hash g = JStr "0"
       /\ is_chain_valid (chain (run Blockchain_init w)) = inr true.
Proof.
  intros H. unfold outcome, run.
  rewrite Blockchain_init_fallback by (left; exact H).
  split; [reflexivity|].
  exists (genesis_at (wall w (ticks w))).
  repeat split.
Qed.

Lemma fresh_ledger_is_genesis_witness :
  disk blank !! default_filename = None
  /\ outcome Blockchain_init blank = inr tt
  /\ exists g, chain (run Blockchain_init blank) = [g]
       /\ index g = JInt 0
       /\ voter_hash g = JStr "GENESIS"
       /\ previous_hash g = JStr "0"
       /\ is_chain_valid (chain (run Blockchain_init blank)) = inr true.
Proof.
  split; [reflexivity | apply (fresh_ledger_is_genesis blank); reflexivity].
Defined.

(** C2: for every n, n calls of [add_vote] on a ledger that holds only the
    genesis block raise nothing and leave n + 1 blocks, the block at
    position i carrying index i, on which [is_chain_valid] answers true. *)
Theorem chain_growth (n : nat) (vs : list vote) (now : pyfloat) (w : World) :
  length vs = n ->
  chain w = [genesis_at now] ->
  outcome (add_votes vs) w = inr tt
  /\ length (chain (run (add_votes vs) w)) = n + 1
  /\ (forall i b, chain (run (add_votes vs) w) !! i = Some b ->
                  index b = JInt (Z.of_nat i))
  /\ is_chain_valid (chain (run (add_votes vs) w)) = inr true.
Proof.
  intros Hn Hc.
  destruct (add_votes_run vs w) as (Hout & Hlen & Hidx & Hlnk).
  - rewrite Hc. discriminate.
  - rewrite Hc. intros [|i] b Hb; [|destruct i; discriminate Hb].
    injection Hb as <-. reflexivity.
  - rewrite Hc. apply linked_single.
  - rewrite Hc in Hlen. cbn [length] in Hlen.
    repeat split; [assumption | lia | exact Hidx | apply is_chain_valid_linked, Hlnk].
Qed.

Lemma chain_growth_witness :
  let vs := [("voterA", JStr "Kerala", JStr "Ernakulam", JStr "LDF");
             ("voterB", JStr "Tamil Nadu", JStr "Chennai", JStr "DMK")] in
  let w := run Blockchain_init blank in
  (length vs = 2 /\ chain w = [genesis_at (second_clock 0)])
  /\ outcome (add_votes vs) w = inr tt
  /\ length (chain (run (add_votes vs) w)) = 2 + 1
  /\ (forall i b, chain (run (add_votes vs) w) !! i = Some b ->
                  index b = JInt (Z.of_nat i))
  /\ is_chain_valid (chain (run (add_votes vs) w)) = inr true.
Proof.
  intros vs w. split; [split; reflexivity|].
  apply (chain_growth 2 vs (second_clock 0) w); reflexivity.
Defined.

(** C4, as the code has it: on a ledger that is not empty, [add_vote]
    constructs a block whose index is the length of the chain before the
    call, whose voter hash is the SHA-256 digest of the raw identifier and
    whose previous hash is the stored hash of the last block, computes its
    hash from its fields, appends exactly that block after the unchanged
    existing ones, and returns nothing ([None]). *)
Theorem add_vote_appends (w : World) (voter_id : string) (s d p : json)
    (previous_block : Block) :
  last (chain w) = Some previous_block ->
  exists new_block,
    chain (run (add_vote voter_id s d p) w) = chain w ++ [new_block]
    /\ index new_block = JInt (Z.of_nat (length (chain w)))
    /\ voter_hash new_block = JStr (SHA256.hexdigest voter_id)
    /\ previous_hash new_block = JStr (hash previous_block)
    /\ state new_block = s /\ district new_block = d /\ party new_block = p
    /\ timestamp new_block = wall w (ticks w)
    /\ hash new_block = calculate_hash new_block
    /\ outcome (add_vote voter_id s d p) w = inr None.
Proof.
  intros Hlast. unfold run, outcome. rewrite (add_vote_run _ _ _ _ _ _ Hlast).
  eexists. repeat split.
Qed.

Lemma add_vote_appends_witness :
  let w := run Blockchain_init blank in
  last (chain w) = Some (genesis_at (second_clock 0))
  /\ exists new_block,
    chain (run (add_vote "voterA" (JStr "Kerala") (JStr "Ernakulam") (JStr "LDF")) w)
    = chain w ++ [new_block]
    /\ index new_block = JInt (Z.of_nat (length (chain w)))
    /\ voter_hash new_block = JStr (SHA256.hexdigest "voterA")
    /\ previous_hash new_block = JStr (hash (genesis_at (second_clock 0)))
    /\ state new_block = JStr "Kerala" /\ district new_block = JStr "Ernakulam"
    /\ party new_block = JStr "LDF"
    /\ timestamp new_block = wall w (ticks w)
    /\ hash new_block = calculate_hash new_block
    /\ outcome (add_vote "voterA" (JStr "Kerala") (JStr "Ernakulam") (JStr "LDF")) w
       = inr None.
Proof.
  intros w. split; [reflexivity|].
  apply (add_vote_appends w "voterA" (JStr "Kerala") (JStr "Ernakulam") (JStr "LDF")
           (genesis_at (second_clock 0))).
  reflexivity.
Defined.

(** C4 as stated fails: the call does not return the block it appended. *)
Lemma add_vote_returns_no_entry :
  let w := run Blockchain_init blank in
  let call := add_vote "voterA" (JStr "Kerala") (JStr "Ernakulam") (JStr "LDF") in
  ~ (exists new_block,
       last (chain (run call w)) = Some new_block
       /\ outcome call w = inr (Some new_block)).
Proof.
  intros w call (new_block & _ & H).
  unfold outcome, call in H.
  rewrite (add_vote_run w _ _ _ _ (genesis_at (second_clock 0))) in H by reflexivity.
  discriminate H.
Qed.

(** C9: [add_vote] never raises, whatever the chain: on an empty chain it
    first appends the genesis block, so that [chain[-1]] has a block to
    return, and the chain it leaves is never empty. *)
Theorem add_vote_total (w : World) (voter_id : string) (s d p : json) :
  outcome (add_vote voter_id s d p) w = inr None
  /\ chain (run (add_vote voter_id s d p) w) <> []
  /\ (chain w = [] ->
      exists new_block,
        chain (run (add_vote voter_id s d p) w)
        = [genesis_at (wall w (ticks w)); new_block]
        /\ previous_hash new_block = JStr (hash (genesis_at (wall w (ticks w)))))
  /\ (chain w <> [] ->
      length (chain (run (add_vote voter_id s d p) w)) = S (length (chain w))).
Proof.
  unfold outcome, run.
  destruct (chain w) as [|b c] eqn:Hc.
  - rewrite (add_vote_run_empty _ _ _ _ _ Hc).
    repeat split; try discriminate.
    + intros _. eexists. split; reflexivity.
    + intros H. contradiction.
  - destruct (nonempty_last (chain w)) as [prev Hprev]; [rewrite Hc; discriminate|].
    rewrite (add_vote_run _ _ _ _ _ _ Hprev). cbn [fst snd chain].
    rewrite Hc. repeat split.
    + discriminate.
    + discriminate.
    + intros _. rewrite length_app. cbn. lia.
Qed.

(** ** What [is_chain_valid] looks at *)

Lemma link_ok_fields c c' i :
  List.map (fun b => (previous_hash b, hash b)) c'
  = List.map (fun b => (previous_hash b, hash b)) c ->
  link_ok c' i = link_ok c i.
Proof.
  intros E.
  assert (L : forall j, (fun b => (previous_hash b, hash b)) <$> (c' !! j)
                        = (fun b => (previous_hash b, hash b)) <$> (c !! j)).
  { intros j. rewrite <- !list_lookup_fmap. unfold fmap, list_fmap.
    f_equal. exact E. }
  unfold link_ok.
  pose proof (L (S i)) as L1. pose proof (L i) as L0.
  destruct (c' !! S i) as [x'|], (c !! S i) as [x|]; try discriminate L1;
    [|reflexivity].
  destruct (c' !! i) as [y'|], (c !! i) as [y|]; try discriminate L0;
    [|reflexivity].
  cbn in L1, L0. congruence.
Qed.

Lemma forallb_pointwise {A} (f g : A -> bool) (l : list A) :
  (forall x, f x = g x) -> forallb f l = forallb g l.
Proof.
  intros E. induction l as [|x l IH]; [reflexivity|].
  cbn. rewrite E, IH. reflexivity.
Qed.

Lemma is_chain_valid_mismatch c i cur prev :
  c !! S i = Some cur -> c !! i = Some prev ->
  previous_hash cur <> JStr (hash prev) ->
  is_chain_valid c = inr false.
Proof.
  intros Hcur Hprev Hne.
  destruct (is_chain_valid c) as [e|[|]] eqn:E.
  - rewrite is_chain_valid_forallb in E. discriminate E.
  - apply is_chain_valid_linked in E. elim Hne. eapply E; eassumption.
  - reflexivity.
Qed.

(** C3: [is_chain_valid] answers true exactly when every block from
    position 1 on names, as its previous hash, the stored hash of the block
    before it; it raises nothing; a mismatch at position i settles the answer
    to false at that iteration, whatever blocks come after; a chain of at
    most one block passes; and the answer depends on the stored hash and
    previous hash of the blocks only, so that a block whose stored hash is
    not the hash of its fields can sit in a chain that passes. *)
Theorem is_chain_valid_checks_links_only :
  (forall c : list Block,
     (is_chain_valid c = inr true <->
      forall i cur prev,
        1 <= i -> c !! i = Some cur -> c !! (i - 1) = Some prev ->
        previous_hash cur = JStr (hash prev))
     /\ (is_chain_valid c = inr true \/ is_chain_valid c = inr false)
     /\ (forall i cur prev,
           1 <= i -> c !! i = Some cur -> c !! (i - 1) = Some prev ->
           previous_hash cur <> JStr (hash prev) ->
           (forall n, is_chain_valid_loop c (Z.of_nat i) (S n) = inr false)
           /\ (forall rest, is_chain_valid (take (S i) c ++ rest) = inr false))
     /\ (length c <= 1 -> is_chain_valid c = inr true)
     /\ (forall c',
           List.map (fun b => (previous_hash b, hash b)) c'
           = List.map (fun b => (previous_hash b, hash b)) c ->
           is_chain_valid c' = is_chain_valid c))
  /\ (exists b, b ∈ edited_chain
                /\ hash b <> calculate_hash b
                /\ is_chain_valid edited_chain = inr true).
Proof.
  split.
  - intros c. split; [|split; [|split; [|split]]].
    + rewrite is_chain_valid_linked. unfold linked. split.
      * intros H i cur prev Hi Hcur Hprev.
        destruct i as [|i]; [lia|].
        replace (S i - 1) with i in Hprev by lia. eapply H; eassumption.
      * intros H i cur prev Hcur Hprev.
        apply (H (S i)); [lia | assumption |].
        replace (S i - 1) with i by lia. assumption.
    + rewrite is_chain_valid_forallb.
      destruct (forallb (link_ok c) (seq 0 (length c - 1))); auto.
    + intros i cur prev Hi Hcur Hprev Hne.
      destruct i as [|i]; [lia|].
      replace (S i - 1) with i in Hprev by lia. split.
      * intros n. cbn [is_chain_valid_loop].
        rewrite (py_index_nat _ _ _ Hcur).
        replace (Z.of_nat (S i) - 1)%Z with (Z.of_nat i) by lia.
        rewrite (py_index_nat _ _ _ Hprev).
        destruct (py_ne_str (previous_hash cur) (hash prev)) eqn:E; [reflexivity|].
        apply py_ne_str_false in E. contradiction.
      * intros rest.
        assert (Hlt : S i < length c) by (eapply lookup_lt_Some; eassumption).
        apply (is_chain_valid_mismatch _ i cur prev); [| |assumption].
        -- rewrite lookup_app_l by (rewrite length_take; lia).
           rewrite lookup_take_lt by lia. assumption.
        -- rewrite lookup_app_l by (rewrite length_take; lia).
           rewrite lookup_take_lt by lia. assumption.
    + intros Hlen. destruct c as [|b [|b' c]]; [reflexivity | reflexivity |].
      cbn in Hlen. lia.
    + intros c' E. rewrite !is_chain_valid_forallb.
      assert (Hlen : length c' = length c).
      { rewrite <- (length_map (fun b => (previous_hash b, hash b)) c'), E.
        apply length_map. }
      rewrite Hlen. f_equal. apply forallb_pointwise. intros i.
      apply link_ok_fields. assumption.
  - exists (List.nth 1 edited_chain (genesis_at (second_clock 0))).
    split; [|split].
    + unfold edited_chain. cbn [List.nth]. apply list_elem_of_In. right. left. reflexivity.
    + vm_compute. discriminate.
    + vm_compute. reflexivity.
Qed.

(** ** Loading *)

Lemma load_block_complete r w :
  complete r = true ->
  load_block r w
  = (inr tt,
     mkWorld (chain w ++ [block_of_record (wall w (ticks w)) r])
             (S (ticks w)) (wall w) (disk w)).
Proof.
  destruct r as [| | | | |items|m]; try discriminate.
  unfold complete, required_fields, has_field. cbn [forallb].
  unfold load_block, block_of_record, field, bind, lift, py_getitem.
  destruct (assoc "index" m); [|discriminate].
  destruct (assoc "voter_hash" m); [|discriminate].
  destruct (assoc "state" m); [|discriminate].
  destruct (assoc "district" m); [|discriminate].
  destruct (assoc "party" m); [|discriminate].
  destruct (assoc "previous_hash" m); [|discriminate].
  reflexivity.
Qed.

Lemma load_block_missing m f w :
  first_missing m = Some f -> load_block (JDict m) w = (inl (KeyError f), w).
Proof.
  unfold first_missing, required_fields, has_field. cbn [List.find].
  unfold load_block, bind, lift, py_getitem.
  destruct (assoc "index" m); cbn [negb]; [|intros [= <-]; reflexivity].
  destruct (assoc "voter_hash" m); cbn [negb]; [|intros [= <-]; reflexivity].
  destruct (assoc "state" m); cbn [negb]; [|intros [= <-]; reflexivity].
  destruct (assoc "district" m); cbn [negb]; [|intros [= <-]; reflexivity].
  destruct (assoc "party" m); cbn [negb]; [|intros [= <-]; reflexivity].
  destruct (assoc "previous_hash" m); cbn [negb]; [|intros [= <-]; reflexivity].
  discriminate.
Qed.

Lemma for_each_load_complete : forall rs w,
  forallb complete rs = true ->
  for_each rs load_block w
  = (inr tt,
     mkWorld (chain w ++ rebuilt (wall w) (ticks w) rs)
             (ticks w + length rs) (wall w) (disk w)).
Proof.
  induction rs as [|r rs IH]; intros w H.
  - cbn. rewrite app_nil_r, Nat.add_0_r. destruct w; reflexivity.
  - cbn [forallb] in H. apply andb_true_iff in H as [Hr Hrs].
    cbn [for_each]. unfold bind. rewrite (load_block_complete _ _ Hr).
    rewrite (IH _ Hrs). cbn [chain ticks wall disk rebuilt length].
    rewrite <- app_assoc. cbn [app]. f_equal. f_equal. lia.
Qed.

Lemma for_each_load_missing : forall good bad rest f w,
  forallb complete good = true ->
  first_missing bad = Some f ->
  for_each (good ++ JDict bad :: rest) load_block w
  = (inl (KeyError f),
     mkWorld (chain w ++ rebuilt (wall w) (ticks w) good)
             (ticks w + length good) (wall w) (disk w)).
Proof.
  induction good as [|r good IH]; intros bad rest f w H Hf.
  - cbn [app for_each]. unfold bind. rewrite (load_block_missing _ _ _ Hf).
    cbn. rewrite app_nil_r, Nat.add_0_r. destruct w; reflexivity.
  - cbn [forallb] in H. apply andb_true_iff in H as [Hr Hrs].
    cbn [app for_each]. unfold bind. rewrite (load_block_complete _ _ Hr).
    fold (@bind unit unit).
    rewrite (IH _ _ _ _ Hrs Hf). cbn [chain ticks wall disk rebuilt length].
    rewrite <- app_assoc. cbn [app]. f_equal. f_equal. lia.
Qed.

Lemma Blockchain_init_missing_field w good bad rest f :
  forallb complete good = true ->
  first_missing bad = Some f ->
  disk w !! default_filename = Some (Document (JList (good ++ JDict bad :: rest))) ->
  Blockchain_init w
  = (inl (KeyError f),
     mkWorld (rebuilt (wall w) (ticks w) good) (ticks w + length good)
             (wall w) (disk w)).
Proof.
  intros Hgood Hbad Hfile.
  unfold Blockchain_init, load_chain, put_chain, bind at 1 2.
  unfold try_except_load, bind, read_json. cbn [disk set_chain].
  rewrite Hfile. unfold lift, py_iter.
  rewrite (for_each_load_missing _ _ _ _ _ Hgood Hbad). reflexivity.
Qed.

(** The damage [load_chain] recovers from: when the file is missing, or is
    text that is not JSON, or holds a value with no entries to go through,
    constructing the ledger raises nothing and leaves what constructing the
    genesis block on an empty chain leaves: the genesis block alone. *)
Theorem load_falls_back_to_genesis (w : World) :
  (disk w !! default_filename = None
   \/ disk w !! default_filename = Some Unparsable
   \/ exists doc, disk w !! default_filename = Some (Document doc)
                  /\ py_iter doc = inr []) ->
  outcome Blockchain_init w = inr tt
  /\ chain (run Blockchain_init w) = [genesis_at (wall w (ticks w))]
  /\ run Blockchain_init w = run create_genesis_block (set_chain [] w).
Proof.
  intros H. unfold outcome, run. rewrite (Blockchain_init_fallback _ H).
  repeat split.
Qed.

Lemma load_falls_back_to_genesis_witness :
  let w := set_disk (<[default_filename := Unparsable]> ∅) blank in
  (disk w !! default_filename = None
   \/ disk w !! default_filename = Some Unparsable
   \/ exists doc, disk w !! default_filename = Some (Document doc)
                  /\ py_iter doc = inr [])
  /\ outcome Blockchain_init w = inr tt
  /\ chain (run Blockchain_init w) = [genesis_at (wall w (ticks w))]
  /\ run Blockchain_init w = run create_genesis_block (set_chain [] w).
Proof.
  intros w.
  assert (H : disk w !! default_filename = None
              \/ disk w !! default_filename = Some Unparsable
              \/ exists doc, disk w !! default_filename = Some (Document doc)
                             /\ py_iter doc = inr []).
  { right. left. reflexivity. }
  split; [exact H | apply (load_falls_back_to_genesis w H)].
Defined.

(** C6 fails on the code: a file that cannot be read as JSON for another
    reason than its syntax is not recovered from.  Bytes that are not text,
    an integer with too many digits and nesting too deep make the reading
    raise [UnicodeDecodeError], [ValueError] and [RecursionError]; the
    handler of [load_chain] names none of them, so constructing the ledger
    raises to the caller and no genesis block is made. *)
Theorem unreadable_file_crashes_construction :
  (forall w, disk w !! default_filename = Some Undecodable ->
             outcome Blockchain_init w = inl UnicodeDecodeError
             /\ chain (run Blockchain_init w) = [])
  /\ (forall w, disk w !! default_filename = Some Oversized ->
                outcome Blockchain_init w = inl ValueError
                /\ chain (run Blockchain_init w) = [])
  /\ (forall w, disk w !! default_filename = Some TooDeep ->
                outcome Blockchain_init w = inl RecursionError
                /\ chain (run Blockchain_init w) = [])
  /\ outcome Blockchain_init garbled = inl UnicodeDecodeError
  /\ chain (run Blockchain_init garbled) = []
  /\ run Blockchain_init garbled <> run create_genesis_block (set_chain [] garbled).
Proof.
  assert (H : forall w content e,
            disk w !! default_filename = Some content ->
            match content with
            | Undecodable => e = UnicodeDecodeError
            | Oversized => e = ValueError
            | TooDeep => e = RecursionError
            | _ => False
            end ->
            outcome Blockchain_init w = inl e /\ chain (run Blockchain_init w) = []).
  { intros w content e Hfile He.
    unfold outcome, run, Blockchain_init, load_chain, put_chain, bind at 1 2.
    unfold try_except_load, bind, read_json. cbn [disk set_chain].
    rewrite Hfile. destruct content; try contradiction; subst e; split; reflexivity. }
  split; [|split; [|split; [|split; [|split]]]].
  - intros w Hw. apply (H w Undecodable); [exact Hw | reflexivity].
  - intros w Hw. apply (H w Oversized); [exact Hw | reflexivity].
  - intros w Hw. apply (H w TooDeep); [exact Hw | reflexivity].
  - reflexivity.
  - reflexivity.
  - intros E. apply (f_equal chain) in E. discriminate E.
Qed.

(** C5 fails on the code: a record without one of the six keys is not
    recovered from.  On a file holding the two records of a saved ledger and
    a third record that lost its "party", constructing the ledger raises
    [KeyError] for "party" to the caller, after the two blocks of the records
    before it were constructed: the load is neither treated as absent nor
    replaced by a genesis-only ledger. *)
Theorem missing_field_crashes_construction :
  outcome Blockchain_init damaged = inl (KeyError "party")
  /\ length (chain (run Blockchain_init damaged)) = 2
  /\ List.map voter_hash (chain (run Blockchain_init damaged))
     = [JStr "GENESIS"; JStr (SHA256.hexdigest "voterA")]
  /\ (forall now, chain (run Blockchain_init damaged) <> [genesis_at now]).
Proof.
  assert (E : Blockchain_init damaged
              = (inl (KeyError "party"),
                 mkWorld (rebuilt (wall damaged) (ticks damaged) saved_records)
                         (ticks damaged + length saved_records)
                         (wall damaged) (disk damaged))).
  { apply (Blockchain_init_missing_field damaged saved_records
             record_without_party [] "party"); reflexivity. }
  unfold outcome, run. rewrite E. cbn [fst snd chain].
  split; [reflexivity|]. split; [reflexivity|]. split; [reflexivity|].
  intros now H. discriminate H.
Qed.

(** ** Saving and loading back *)

Lemma complete_to_dict b : complete (to_dict b) = true.
Proof. reflexivity. Qed.

Lemma block_of_record_to_dict now b :
  block_of_record now (to_dict b)
  = block_at now (index b) (voter_hash b) (state b) (district b) (party b)
             (previous_hash b).
Proof. reflexivity. Qed.

(** Loading what [save_chain] wrote constructs every block anew: the six
    arguments are the stored ones, the timestamp is the clock of the load. *)
Lemma save_then_load w :
  chain w <> [] ->
  run (exec save_chain default_filename; Blockchain_init) w
  = mkWorld (rebuilt (wall w) (ticks w) (List.map to_dict (chain w)))
            (ticks w + length (chain w)) (wall w)
            (<[default_filename := Document (JList (List.map to_dict (chain w)))]> (disk w)).
Proof.
  intros Hne. unfold run, bind at 1, save_chain.
  unfold Blockchain_init, load_chain, put_chain, bind at 1 2.
  unfold try_except_load, bind, read_json. cbn [disk set_chain set_disk chain ticks wall].
  rewrite lookup_insert_eq. unfold lift, py_iter.
  rewrite for_each_load_complete.
  - cbn [chain ticks wall disk app snd get_chain]. rewrite length_map.
    destruct (chain w) as [|b c] eqn:Hc; [contradiction|]. reflexivity.
  - apply forallb_forall. intros r Hr. apply in_map_iff in Hr as (b & <- & _).
    apply complete_to_dict.
Qed.

Lemma rebuilt_lookup wall : forall rs t i r,
  rs !! i = Some r ->
  rebuilt wall t rs !! i = Some (block_of_record (wall (t + i)) r).
Proof.
  induction rs as [|r0 rs IH]; intros t i r H; [discriminate H|].
  destruct i as [|i]; cbn [rebuilt].
  - injection H as <-. rewrite Nat.add_0_r. reflexivity.
  - change ((r0 :: rs) !! S i) with (rs !! i) in H.
    change (rebuilt wall (S t) rs !! i
            = Some (block_of_record (wall (t + S i)) r)).
    rewrite (IH (S t) i r H). do 3 f_equal. lia.
Qed.

(** C1 fails on the code.  Whatever chain was saved, constructing the
    ledger again builds each block anew from six of its stored fields at
    the clock of the load, so the block at position i carries the reading
    taken i readings after the load began, not the stored timestamp.  After
    one vote is saved and the ledger is constructed again, the six
    constructor arguments of every block are the stored ones, but the
    timestamps are those of the second construction, the hashes differ from
    the stored ones, and [is_chain_valid] answers false. *)
Theorem reload_invalidates_chain :
  (forall w i old,
     chain w !! i = Some old ->
     chain (run (exec save_chain default_filename; Blockchain_init) w) !! i
     = Some (block_at (wall w (ticks w + i)) (index old) (voter_hash old)
               (state old) (district old) (party old) (previous_hash old))) /\
  let saved := run first_vote blank in
  let reloaded := run Blockchain_init saved in
  is_chain_valid (chain saved) = inr true
  /\ outcome Blockchain_init saved = inr tt
  /\ List.map (fun b => (index b, voter_hash b, state b, district b, party b,
                         previous_hash b)) (chain reloaded)
     = List.map (fun b => (index b, voter_hash b, state b, district b, party b,
                           previous_hash b)) (chain saved)
  /\ List.map timestamp (chain saved) = [second_clock 0; second_clock 1]
  /\ List.map timestamp (chain reloaded) = [second_clock 2; second_clock 3]
  /\ (forall i old new, chain saved !! i = Some old ->
                        chain reloaded !! i = Some new -> hash new <> hash old)
  /\ is_chain_valid (chain reloaded) = inr false.
Proof.
  split.
  { intros w i old Hi.
    rewrite save_then_load by (intros E; rewrite E in Hi; discriminate Hi).
    cbn [chain].
    rewrite (rebuilt_lookup _ _ _ _ (to_dict old))
      by (rewrite list_lookup_fmap, Hi; reflexivity).
    reflexivity. }
  intros saved reloaded.
  split; [vm_compute; reflexivity|].
  split; [vm_compute; reflexivity|].
  split; [vm_compute; reflexivity|].
  split; [vm_compute; reflexivity|].
  split; [vm_compute; reflexivity|].
  split; [|vm_compute; reflexivity].
  let c := eval vm_compute in (chain saved) in
  assert (Es : chain saved = c) by (vm_compute; reflexivity).
  let c := eval vm_compute in (chain reloaded) in
  assert (Er : chain reloaded = c) by (vm_compute; reflexivity).
  rewrite Es, Er.
  intros [|[|i]] old new Ho Hn.
  - injection Ho as <-. injection Hn as <-. cbn [hash]. discriminate.
  - injection Ho as <-. injection Hn as <-. cbn [hash]. discriminate.
  - discriminate Ho.
Qed.

(** ** The tally *)

Lemma string_compare_refl s : String.compare s s = Eq.
Proof.
  pose proof (String.compare_antisym s s) as H.
  destruct (String.compare s s); [reflexivity | discriminate H | discriminate H].
Qed.

Lemma string_compare_trans a b c :
  String.compare a b = Lt -> String.compare b c = Lt -> String.compare a c = Lt.
Proof.
  intros H1 H2.
  exact (StrictOrder_Transitive (R := String_as_OT.lt) a b c H1 H2).
Qed.

Lemma key_compare_eq a b : key_compare a b = Eq <-> a = b.
Proof.
  destruct a as [[s1 d1] p1], b as [[s2 d2] p2]. cbn. split.
  - destruct (String.compare s1 s2) eqn:Es; try discriminate.
    destruct (String.compare d1 d2) eqn:Ed; try discriminate.
    intros Ep. apply String.compare_eq_iff in Es, Ed, Ep. congruence.
  - intros [= -> -> ->]. rewrite !string_compare_refl. reflexivity.
Qed.

Lemma key_lt_trans a b c : key_lt a b -> key_lt b c -> key_lt a c.
Proof.
  unfold key_lt.
  destruct a as [[s1 d1] p1], b as [[s2 d2] p2], c as [[s3 d3] p3]. cbn.
  destruct (String.compare s1 s2) eqn:E12; try discriminate.
  - apply String.compare_eq_iff in E12. subst s2.
    destruct (String.compare s1 s3) eqn:E13; try (intros; assumption || discriminate).
    destruct (String.compare d1 d2) eqn:D12; try discriminate.
    + apply String.compare_eq_iff in D12. subst d2.
      destruct (String.compare d1 d3); try (intros; assumption || discriminate).
      apply string_compare_trans.
    + intros _. destruct (String.compare d2 d3) eqn:D23; try discriminate.
      * apply String.compare_eq_iff in D23. subst d3. rewrite D12. reflexivity.
      * intros _. rewrite (string_compare_trans _ _ _ D12 D23). reflexivity.
  - intros _. destruct (String.compare s2 s3) eqn:E23; try discriminate.
    + apply String.compare_eq_iff in E23. subst s3. rewrite E12. reflexivity.
    + intros _. rewrite (string_compare_trans _ _ _ E12 E23). reflexivity.
Qed.

Lemma key_lt_irrefl a : ~ key_lt a a.
Proof.
  unfold key_lt. rewrite (proj2 (key_compare_eq a a) eq_refl). discriminate.
Qed.

Lemma key_compare_gt a b : key_compare a b = Gt -> key_lt b a.
Proof.
  unfold key_lt.
  destruct a as [[s1 d1] p1], b as [[s2 d2] p2]. cbn.
  rewrite (String.compare_antisym s2 s1), (String.compare_antisym d2 d1),
          (String.compare_antisym p2 p1).
  destruct (String.compare s1 s2); cbn; try discriminate; try reflexivity.
  destruct (String.compare d1 d2); cbn; try discriminate; try reflexivity.
  destruct (String.compare p1 p2); cbn; try discriminate; reflexivity.
Qed.

Lemma same_key_eq a b : same_key a b = true <-> a = b.
Proof.
  unfold same_key. rewrite <- key_compare_eq.
  destruct (key_compare a b); split; congruence.
Qed.

Lemma same_key_refl a : same_key a a = true.
Proof. apply same_key_eq. reflexivity. Qed.

Lemma votes_for_bump k k' : forall table,
  votes_for k' (bump k table) = (if same_key k' k then 1 else 0) + votes_for k' table.
Proof.
  induction table as [|[k1 n] table IH]; [reflexivity|].
  cbn [bump]. destruct (key_compare k k1) eqn:E.
  - apply key_compare_eq in E. subst k1. cbn [votes_for].
    destruct (same_key k' k); lia.
  - reflexivity.
  - cbn [votes_for]. rewrite IH. lia.
Qed.

Lemma bump_keys k k' n' : forall table,
  In (k', n') (bump k table) -> k' = k \/ exists n, In (k', n) table.
Proof.
  induction table as [|[k1 n] table IH]; cbn [bump].
  - intros [[= <- <-]|[]]. left. reflexivity.
  - destruct (key_compare k k1) eqn:E.
    + intros [[= <- <-]|H]; right; eexists; [left; reflexivity | right; exact H].
    + intros [[= <- <-]|H]; [left; reflexivity | right; eexists; exact H].
    + intros [[= <- <-]|H].
      * right. eexists. left. reflexivity.
      * destruct (IH H) as [->|[m Hm]]; [left; reflexivity|].
        right. exists m. right. exact Hm.
Qed.

Lemma ascending_bump k : forall table, ascending table -> ascending (bump k table).
Proof.
  induction table as [|[k1 n] table IH]; cbn [bump ascending].
  - intros _. repeat split; [lia | intros k' n' []].
  - intros (Hn & Hlt & Hrest). destruct (key_compare k k1) eqn:E.
    + cbn [ascending]. repeat split; [lia | exact Hlt | exact Hrest].
    + cbn [ascending]. repeat split; [lia | | assumption | assumption | assumption].
      intros k' n' [[= <- <-]|H]; [exact E|].
      eapply key_lt_trans; [exact E | eapply Hlt; exact H].
    + cbn [ascending]. repeat split; [assumption | | apply IH; assumption].
      intros k' n' H. destruct (bump_keys _ _ _ _ H) as [->|[m Hm]].
      * apply key_compare_gt. exact E.
      * eapply Hlt. exact Hm.
Qed.

Lemma votes_for_absent k : forall table,
  (forall k' n', In (k', n') table -> k' <> k) -> votes_for k table = 0.
Proof.
  induction table as [|[k1 n] table IH]; intros H; [reflexivity|].
  cbn [votes_for]. rewrite IH by (intros k' n' Hin; apply (H k' n'); right; exact Hin).
  destruct (same_key k k1) eqn:E; [|reflexivity].
  apply same_key_eq in E. exfalso. apply (H k1 n); [left; reflexivity | congruence].
Qed.

Lemma ascending_votes_for k n : forall table,
  ascending table -> In (k, n) table -> votes_for k table = n.
Proof.
  induction table as [|[k1 n1] table IH]; [intros _ []|].
  cbn [ascending votes_for]. intros (Hn & Hlt & Hrest) [[= -> ->]|Hin].
  - rewrite same_key_refl, votes_for_absent; [lia|].
    intros k' n' Hin ->. exact (key_lt_irrefl _ (Hlt _ _ Hin)).
  - rewrite (IH Hrest Hin).
    destruct (same_key k k1) eqn:E; [|reflexivity].
    apply same_key_eq in E. subst k1.
    exfalso. exact (key_lt_irrefl _ (Hlt _ _ Hin)).
Qed.

Lemma votes_for_present k : forall table,
  votes_for k table <> 0 -> exists n, In (k, n) table.
Proof.
  induction table as [|[k1 n1] table IH]; [intros H; contradiction|].
  cbn [votes_for]. destruct (same_key k k1) eqn:E.
  - intros _. apply same_key_eq in E. subst k1. exists n1. left. reflexivity.
  - intros H. destruct (IH H) as [n Hn]. exists n. right. exact Hn.
Qed.

Lemma votes_for_groupby_size k : forall ks,
  votes_for k (groupby_size ks) = length (List.filter (same_key k) ks).
Proof.
  induction ks as [|k0 ks IH]; [reflexivity|].
  cbn [groupby_size fold_right List.filter]. fold (groupby_size ks).
  rewrite votes_for_bump, IH. destruct (same_key k k0); reflexivity.
Qed.

Lemma ascending_groupby_size : forall ks, ascending (groupby_size ks).
Proof.
  induction ks as [|k0 ks IH]; [exact I|].
  cbn [groupby_size fold_right]. apply ascending_bump. exact IH.
Qed.

Lemma vote_blocks_filter : forall c votes,
  vote_blocks c = inr votes -> votes = List.filter is_vote c.
Proof.
  induction c as [|b c IH]; cbn [vote_blocks List.filter]; intros votes.
  - intros [= <-]. reflexivity.
  - assert (Hb : is_vote b = match py_gt0 (index b) with
                             | inr true => true
                             | _ => false
                             end) by reflexivity.
    rewrite Hb. destruct (py_gt0 (index b)) as [e|keep]; [discriminate|].
    destruct (vote_blocks c) as [e|bs]; [discriminate|].
    intros [= <-]. rewrite <- (IH bs eq_refl). destruct keep; reflexivity.
Qed.

Lemma keys_of_groups k : forall votes ks,
  keys_of votes = Some ks ->
  length (List.filter (same_key k) ks) = length (List.filter (in_group k) votes).
Proof.
  induction votes as [|b votes IH]; cbn [keys_of]; intros ks.
  - intros [= <-]. reflexivity.
  - destruct (key_of b) as [k0|] eqn:Ek; [|discriminate].
    destruct (keys_of votes) as [ks0|]; [|discriminate].
    intros [= <-]. cbn [List.filter].
    assert (Hg : in_group k b = same_key k k0).
    { unfold in_group. rewrite Ek. reflexivity. }
    rewrite Hg.
    destruct (same_key k k0); cbn [length]; rewrite (IH ks0 eq_refl); reflexivity.
Qed.

Lemma ascending_positive k n : forall table,
  ascending table -> In (k, n) table -> 0 < n.
Proof.
  induction table as [|[k1 n1] table IH]; [intros _ []|].
  cbn [ascending]. intros (Hn & _ & Hrest) [[= -> ->]|Hin]; [exact Hn|].
  exact (IH Hrest Hin).
Qed.

Lemma bump_not_empty k table : bump k table <> [].
Proof.
  destruct table as [|[k1 n] table]; cbn [bump]; [discriminate|].
  destruct (key_compare k k1); discriminate.
Qed.

(** The rows of a table computed from keys [ks]: one row per key that
    occurs, holding how many times it occurs. *)
Lemma groupby_size_rows ks k n :
  In (k, n) (groupby_size ks)
  <-> n <> 0 /\ n = length (List.filter (same_key k) ks).
Proof.
  pose proof (ascending_groupby_size ks) as Hasc. split.
  - intros Hin. split.
    + pose proof (ascending_positive _ _ _ Hasc Hin). lia.
    + rewrite <- votes_for_groupby_size. symmetry.
      apply ascending_votes_for; assumption.
  - intros [Hn ->]. rewrite <- votes_for_groupby_size in Hn |- *.
    destruct (votes_for_present _ _ Hn) as [m Hm].
    rewrite (ascending_votes_for _ _ _ Hasc Hm). exact Hm.
Qed.

Lemma get_vote_counts_frame c df :
  get_vote_counts c = Frame df ->
  (List.filter is_vote c = []
   /\ df = mkFrame ["State"; "District"; "Party"; "Votes"] [])
  \/ (List.filter is_vote c <> []
      /\ exists ks, keys_of (List.filter is_vote c) = Some ks
                    /\ df = mkFrame ["state"; "district"; "party"; "Votes"]
                                    (groupby_size ks)).
Proof.
  unfold get_vote_counts.
  destruct (vote_blocks c) as [e|votes] eqn:Ev; [discriminate|].
  apply vote_blocks_filter in Ev. rewrite <- Ev.
  destruct votes as [|b votes].
  - intros [= <-]. left. split; reflexivity.
  - destruct (keys_of (b :: votes)) as [ks|]; [|discriminate].
    intros [= <-]. right. split; [discriminate|]. exists ks. split; reflexivity.
Qed.

(** C8: the table [get_vote_counts] returns has one row for each
    (state, district, party) key that occurs among the blocks with index
    above 0, holding the number of those blocks with that key, in key order;
    a block with index 0, such as the genesis block, is never counted; and
    on a ledger whose other blocks carry Kerala/Ernakulam/LDF twice and
    Tamil Nadu/Chennai/BJP once the counts are 2 and 1. *)
Theorem tally_counts_votes_per_group :
  (forall c df,
     get_vote_counts c = Frame df ->
     ascending (rows df)
     /\ forall k n,
          In (k, n) (rows df)
          <-> n <> 0
              /\ n = length (List.filter (in_group k) (List.filter is_vote c)))
  /\ (forall b, index b = JInt 0 -> is_vote b = false)
  /\ (forall now, is_vote (genesis_at now) = false)
  /\ (forall g b1 b2 b3,
        index g = JInt 0 ->
        is_vote b1 = true -> is_vote b2 = true -> is_vote b3 = true ->
        key_of b1 = Some ("Kerala", "Ernakulam", "LDF") ->
        key_of b2 = Some ("Kerala", "Ernakulam", "LDF") ->
        key_of b3 = Some ("Tamil Nadu", "Chennai", "BJP") ->
        get_vote_counts [g; b1; b2; b3]
        = Frame (mkFrame ["state"; "district"; "party"; "Votes"]
                   [ (("Kerala", "Ernakulam", "LDF"), 2);
                     (("Tamil Nadu", "Chennai", "BJP"), 1) ]))
  /\ get_vote_counts (chain (run three_votes blank))
     = Frame (mkFrame ["state"; "district"; "party"; "Votes"]
                [ (("Kerala", "Ernakulam", "LDF"), 2);
                  (("Tamil Nadu", "Chennai", "BJP"), 1) ]).
Proof.
  split; [|split; [|split; [|split]]].
  - intros c df H.
    destruct (get_vote_counts_frame _ _ H) as [[Hv ->]|(Hv & ks & Hks & ->)];
      cbn [rows].
    + split; [exact I|]. intros k n. rewrite Hv. cbn. split; [intros []|].
      intros [Hn ->]. contradiction.
    + split; [apply ascending_groupby_size|]. intros k n.
      rewrite groupby_size_rows, (keys_of_groups k _ _ Hks). reflexivity.
  - intros b Hb. unfold is_vote. rewrite Hb. reflexivity.
  - intros now. reflexivity.
  - intros g b1 b2 b3 Hg H1 H2 H3 K1 K2 K3.
    unfold is_vote in H1, H2, H3. unfold get_vote_counts. cbn [vote_blocks].
    rewrite Hg. cbn [py_gt0 Z.ltb Z.compare].
    destruct (py_gt0 (index b1)) as [|[|]]; try discriminate H1.
    destruct (py_gt0 (index b2)) as [|[|]]; try discriminate H2.
    destruct (py_gt0 (index b3)) as [|[|]]; try discriminate H3.
    cbn [keys_of]. rewrite K1, K2, K3. reflexivity.
  - vm_compute. reflexivity.
Qed.

(** C10: on a ledger with no block above index 0, such as the genesis-only
    ledger, the table is empty with columns "State", "District", "Party",
    "Votes"; as soon as one block has an index above 0 the table has rows
    and its columns are "state", "district", "party", "Votes"; the two lists
    of column names differ. *)
Theorem tally_schema_depends_on_votes :
  (forall now,
     get_vote_counts [genesis_at now]
     = Frame (mkFrame ["State"; "District"; "Party"; "Votes"] []))
  /\ (forall c df,
        get_vote_counts c = Frame df -> List.filter is_vote c = [] ->
        df = mkFrame ["State"; "District"; "Party"; "Votes"] [])
  /\ (forall c df,
        get_vote_counts c = Frame df -> List.filter is_vote c <> [] ->
        columns df = ["state"; "district"; "party"; "Votes"] /\ rows df <> [])
  /\ columns (mkFrame ["State"; "District"; "Party"; "Votes"] [])
     <> ["state"; "district"; "party"; "Votes"]
  /\ (exists df, get_vote_counts (chain (run three_votes blank)) = Frame df
                 /\ columns df = ["state"; "district"; "party"; "Votes"]).
Proof.
  split; [|split; [|split; [|split]]].
  - intros now. reflexivity.
  - intros c df H Hv.
    destruct (get_vote_counts_frame _ _ H) as [[_ ->]|(Hne & _)];
      [reflexivity | contradiction].
  - intros c df H Hv.
    destruct (get_vote_counts_frame _ _ H) as [[He _]|(_ & ks & Hks & ->)];
      [contradiction|].
    split; [reflexivity|]. cbn [rows].
    destruct ks as [|k ks].
    + destruct (List.filter is_vote c) as [|b bs]; [contradiction|].
      cbn [keys_of] in Hks. destruct (key_of b); [|discriminate].
      destruct (keys_of bs); discriminate.
    + apply bump_not_empty.
  - cbn [columns]. discriminate.
  - eexists. split; [vm_compute; reflexivity | reflexivity].
Qed.

(** * Further properties of the code *)

(** ** Digests have 64 characters *)

#[local] Transparent SHA256.hexdigest.

Lemma hex_of_length n x : String.length (SHA256.hex_of n x) = n.
Proof. induction n as [|n IH]; cbn; [reflexivity | rewrite IH; reflexivity]. Qed.

Lemma blocks_length fuel : forall h ws,
  length h = 8 -> length (SHA256.blocks fuel h ws) = 8.
Proof.
  induction fuel as [|fuel IH]; intros h ws Hh; cbn [SHA256.blocks]; [exact Hh|].
  destruct ws as [|x ws]; [exact Hh|]. apply IH. reflexivity.
Qed.

Lemma string_length_append a b :
  String.length (a +:+ b) = String.length a + String.length b.
Proof.
  induction a as [|c a IH]; [reflexivity|].
  change (S (String.length (a +:+ b)) = S (String.length a + String.length b)).
  rewrite IH. reflexivity.
Qed.

Lemma concat_hex_length : forall ws,
  String.length (String.concat "" (List.map (SHA256.hex_of 8) ws)) = 8 * length ws.
Proof.
  induction ws as [|x ws IH]; [reflexivity|].
  cbn [List.map String.concat length].
  destruct (List.map (SHA256.hex_of 8) ws) as [|y ys] eqn:E.
  - destruct ws; [|discriminate E]. apply hex_of_length.
  - rewrite string_length_append, hex_of_length.
    change (String.length ("" +:+ String.concat "" (y :: ys)))
      with (String.length (String.concat "" (y :: ys))).
    rewrite IH. lia.
Qed.

Lemma hexdigest_length s : String.length (SHA256.hexdigest s) = 64.
Proof.
  unfold SHA256.hexdigest, SHA256.digest_words.
  rewrite concat_hex_length, blocks_length; reflexivity.
Qed.

#[local] Opaque SHA256.hexdigest.

(** ** What the operations leave of the world *)

Lemma block_at_constructed now i v s d p ph :
  constructed (block_at now i v s d p ph).
Proof. split; [reflexivity | apply hexdigest_length]. Qed.

Lemma extends_refl w : extends w w.
Proof.
  exists []. rewrite app_nil_r, Nat.add_0_r. repeat split. constructor.
Qed.

Lemma extends_trans w1 w2 w3 : extends w1 w2 -> extends w2 w3 -> extends w1 w3.
Proof.
  intros (bs & Hc & Hb & Ht & Hw & Hd) (bs' & Hc' & Hb' & Ht' & Hw' & Hd').
  exists (bs ++ bs'). rewrite Hc', Hc, Ht', Ht, Hw', Hw, Hd', Hd, length_app.
  repeat split; [symmetry; apply app_assoc | | lia].
  apply Forall_app. split; assumption.
Qed.

Lemma extends_append w b :
  constructed b ->
  extends w (mkWorld (chain w ++ [b]) (S (ticks w)) (wall w) (disk w)).
Proof.
  intros Hb. exists [b]. cbn. repeat split; [|lia].
  constructor; [exact Hb | constructor].
Qed.

Lemma create_genesis_block_extends w : extends w (snd (create_genesis_block w)).
Proof.
  rewrite create_genesis_block_run. apply extends_append, block_at_constructed.
Qed.

Lemma load_block_extends r w : extends w (snd (load_block r w)).
Proof.
  unfold load_block, bind, lift.
  destruct (py_getitem r "index"); [apply extends_refl|].
  destruct (py_getitem r "voter_hash"); [apply extends_refl|].
  destruct (py_getitem r "state"); [apply extends_refl|].
  destruct (py_getitem r "district"); [apply extends_refl|].
  destruct (py_getitem r "party"); [apply extends_refl|].
  destruct (py_getitem r "previous_hash"); [apply extends_refl|].
  exact (extends_append w _ (block_at_constructed _ _ _ _ _ _ _)).
Qed.

Lemma for_each_load_extends : forall rs w,
  extends w (snd (for_each rs load_block w)).
Proof.
  induction rs as [|r rs IH]; intros w; [apply extends_refl|].
  cbn [for_each]. unfold bind.
  pose proof (load_block_extends r w) as H.
  destruct (load_block r w) as [[e|[]] w1]; cbn [snd] in H |- *; [exact H|].
  eapply extends_trans; [exact H | apply IH].
Qed.

Lemma add_vote_extends voter_id s d p w :
  extends w (snd (add_vote voter_id s d p w)).
Proof.
  destruct (chain w) as [|b c] eqn:Hc.
  - rewrite (add_vote_run_empty _ _ _ _ _ Hc).
    eexists [_; _]. cbn [snd chain ticks wall disk]. rewrite Hc.
    repeat split; [|cbn; lia].
    repeat constructor; apply block_at_constructed || apply hexdigest_length.
  - destruct (nonempty_last (chain w)) as [prev Hprev]; [rewrite Hc; discriminate|].
    rewrite (add_vote_run _ _ _ _ _ _ Hprev).
    apply extends_append, block_at_constructed.
Qed.

(** Whatever the file holds and whether or not it raises, [load_chain]
    entered with an empty chain only constructs blocks and appends them. *)
Lemma load_chain_extends f w :
  chain w = [] -> extends w (snd (load_chain f w)).
Proof.
  intros Hc.
  assert (Hw : set_chain [] w = w) by (destruct w; cbn in Hc; subst; reflexivity).
  assert (Hg : forall w1, extends w w1 ->
             extends w (snd ((do c <- get_chain;
                              if Nat.eqb (length c) 0 then create_genesis_block
                              else ret tt) w1))).
  { intros w1 H1. unfold bind, get_chain.
    destruct (Nat.eqb (length (chain w1)) 0); [|exact H1].
    eapply extends_trans; [exact H1 | apply create_genesis_block_extends]. }
  assert (Hh : forall w1, extends w w1 ->
             extends w (snd ((exec create_genesis_block;
                              do c <- get_chain;
                              if Nat.eqb (length c) 0 then create_genesis_block
                              else ret tt) w1))).
  { intros w1 H1. unfold bind at 1. rewrite create_genesis_block_run.
    apply Hg. eapply extends_trans; [exact H1|].
    apply extends_append, block_at_constructed. }
  unfold load_chain. unfold bind at 1. unfold try_except_load.
  unfold bind at 1. unfold read_json.
  destruct (disk w !! f) as [[|doc| | |]|].
  - apply (Hh w), extends_refl.
  - unfold bind at 1, put_chain. rewrite Hw. unfold bind at 1, lift.
    destruct (py_iter doc) as [e|rs].
    + destruct e; try apply extends_refl; apply (Hh w), extends_refl.
    + pose proof (for_each_load_extends rs w) as H.
      destruct (for_each rs load_block w) as [[e|[]] w1]; cbn [snd] in H.
      * destruct e; try exact H; apply (Hh w1), H.
      * apply (Hg w1), H.
  - apply extends_refl.
  - apply extends_refl.
  - apply extends_refl.
  - apply (Hh w), extends_refl.
Qed.

Lemma Blockchain_init_extends w :
  extends (set_chain [] w) (snd (Blockchain_init w)).
Proof.
  unfold Blockchain_init, bind, put_chain.
  apply load_chain_extends. reflexivity.
Qed.

Lemma load_chain_populated f w :
  fst (load_chain f w) = inr tt -> chain (snd (load_chain f w)) <> [].
Proof.
  unfold load_chain.
  match goal with |- context [try_except_load ?b ?h] =>
    set (T := try_except_load b h) end.
  unfold bind, get_chain.
  destruct (T w) as [[e|[]] w1]; [discriminate|].
  destruct (chain w1) as [|b c] eqn:Hc; cbn [length Nat.eqb].
  - intros _. rewrite create_genesis_block_run. cbn [snd chain]. rewrite Hc.
    discriminate.
  - intros _. cbn [ret snd]. rewrite Hc. discriminate.
Qed.

(** X1: in every state the program reaches (the ledger constructed
    without an exception, then votes added, the ledger saved, the script run
    again), the chain is not empty and every block in it carries as its hash
    the 64-character digest of its own fields. *)
Theorem reachable_chain_is_populated_and_self_hashed (w : World) :
  reachable w ->
  chain w <> []
  /\ Forall (fun b => hash b = calculate_hash b /\ String.length (hash b) = 64)
            (chain w).
Proof.
  assert (Hinit : forall w0, outcome Blockchain_init w0 = inr tt ->
            chain (run Blockchain_init w0) <> []
            /\ Forall constructed (chain (run Blockchain_init w0))).
  { intros w0 Hok. split.
    - unfold run, outcome, Blockchain_init, bind, put_chain in *.
      apply load_chain_populated. exact Hok.
    - destruct (Blockchain_init_extends w0) as (bs & Hc & Hbs & _).
      unfold run. rewrite Hc. exact Hbs. }
  induction 1 as [w Hok | w voter_id s d p Hr IH | w Hr IH | w Hr IH Hok].
  - apply Hinit, Hok.
  - destruct IH as [Hne Hall].
    destruct (add_vote_extends voter_id s d p w) as (bs & Hc & Hbs & _).
    unfold run. rewrite Hc. split.
    + intros E. apply app_eq_nil in E. destruct E. contradiction.
    + apply Forall_app. split; assumption.
  - exact IH.
  - apply Hinit, Hok.
Qed.

Lemma reachable_chain_is_populated_and_self_hashed_witness :
  reachable (run first_vote blank)
  /\ chain (run first_vote blank) <> []
  /\ Forall (fun b => hash b = calculate_hash b /\ String.length (hash b) = 64)
            (chain (run first_vote blank)).
Proof.
  assert (H : reachable (run first_vote blank)).
  { apply (reach_save (run (add_vote "voterA" (JStr "Kerala") (JStr "Ernakulam")
                              (JStr "LDF")) (run Blockchain_init blank))).
    apply reach_vote. apply reach_start. reflexivity. }
  split; [exact H|].
  apply (reachable_chain_is_populated_and_self_hashed (run first_vote blank) H).
Defined.

Lemma world_eta w : mkWorld (chain w) (ticks w) (wall w) (disk w) = w.
Proof. destruct w; reflexivity. Qed.

(** X2: constructing the ledger and adding a vote never write a file, and
    [save_chain] writes the named file only; so a vote that was added but not
    saved leaves no trace once the ledger is constructed again: the result is
    the one a construction at that clock reading gives without the vote. *)
Theorem only_save_chain_writes :
  (forall w, disk (run Blockchain_init w) = disk w)
  /\ (forall w voter_id s d p, disk (run (add_vote voter_id s d p) w) = disk w)
  /\ (forall w f f', f' <> f ->
        disk (run (save_chain f) w) !! f' = disk w !! f')
  /\ (forall w voter_id s d p,
        run Blockchain_init (run (add_vote voter_id s d p) w)
        = run Blockchain_init
            (set_ticks (ticks (run (add_vote voter_id s d p) w)) w)).
Proof.
  split; [|split; [|split]].
  - intros w. destruct (Blockchain_init_extends w) as (bs & _ & _ & _ & _ & Hd).
    exact Hd.
  - intros w voter_id s d p.
    destruct (add_vote_extends voter_id s d p w) as (bs & _ & _ & _ & _ & Hd).
    exact Hd.
  - intros w f f' Hne. unfold run, save_chain. cbn [snd set_disk disk].
    apply lookup_insert_ne. congruence.
  - intros w voter_id s d p.
    destruct (add_vote_extends voter_id s d p w) as (bs & _ & _ & _ & Hw & Hd).
    unfold run at 2 4. set (w1 := snd (add_vote voter_id s d p w)) in *.
    rewrite <- (world_eta w1), Hw, Hd. reflexivity.
Qed.

(** ** The tally reads four fields *)

Lemma map_cons_eq {A B} (f : A -> B) x l x' l' :
  List.map f (x :: l) = List.map f (x' :: l') ->
  f x = f x' /\ List.map f l = List.map f l'.
Proof. intros [= H1 H2]. split; assumption. Qed.

Lemma vote_blocks_fields : forall c c',
  List.map tally_fields c = List.map tally_fields c' ->
  match vote_blocks c, vote_blocks c' with
  | inl e, inl e' => e = e'
  | inr v, inr v' => List.map tally_fields v = List.map tally_fields v'
  | _, _ => False
  end.
Proof.
  induction c as [|b c IH]; intros [|b' c'] E; try discriminate E; [reflexivity|].
  apply map_cons_eq in E as [Eb Ec].
  assert (Ei : index b = index b') by (unfold tally_fields in Eb; congruence).
  specialize (IH c' Ec). cbn [vote_blocks]. rewrite <- Ei.
  destruct (py_gt0 (index b)) as [e|keep]; [reflexivity|].
  destruct (vote_blocks c) as [e|v], (vote_blocks c') as [e'|v'];
    try contradiction; [exact IH|].
  destruct keep; [|exact IH]. cbn [List.map]. rewrite Eb, IH. reflexivity.
Qed.

Lemma keys_of_fields : forall v v',
  List.map tally_fields v = List.map tally_fields v' -> keys_of v = keys_of v'.
Proof.
  induction v as [|b v IH]; intros [|b' v'] E; try discriminate E; [reflexivity|].
  apply map_cons_eq in E as [Eb Ev].
  cbn [keys_of]. rewrite (IH v' Ev).
  unfold key_of. unfold tally_fields in Eb. injection Eb as _ -> -> ->.
  reflexivity.
Qed.

Lemma get_vote_counts_fields c c' :
  List.map tally_fields c = List.map tally_fields c' ->
  get_vote_counts c = get_vote_counts c'.
Proof.
  intros E. pose proof (vote_blocks_fields c c' E) as H.
  unfold get_vote_counts.
  destruct (vote_blocks c) as [e|v], (vote_blocks c') as [e'|v'];
    try contradiction; [congruence|].
  rewrite <- (keys_of_fields v v' H).
  destruct v as [|b v], v' as [|b' v']; try discriminate H; reflexivity.
Qed.

Lemma rebuilt_constructor_fields wall : forall c t,
  List.map constructor_fields (rebuilt wall t (List.map to_dict c))
  = List.map constructor_fields c.
Proof.
  induction c as [|b c IH]; intros t; [reflexivity|].
  cbn [List.map rebuilt]. rewrite IH. reflexivity.
Qed.

Lemma rebuilt_tally_fields wall : forall c t,
  List.map tally_fields (rebuilt wall t (List.map to_dict c))
  = List.map tally_fields c.
Proof.
  induction c as [|b c IH]; intros t; [reflexivity|].
  cbn [List.map rebuilt]. rewrite IH. reflexivity.
Qed.

(** X3: the vote counts survive a restart: after [save_chain], the
    ledger constructed again from the file gives the same result of
    [get_vote_counts] as the ledger that was saved, whatever the chain and
    the clock. *)
Theorem tally_survives_reload (w : World) :
  outcome (exec save_chain default_filename; Blockchain_init) w = inr tt
  /\ get_vote_counts
       (chain (run (exec save_chain default_filename; Blockchain_init) w))
     = get_vote_counts (chain w).
Proof.
  destruct (chain w) as [|b c] eqn:Hc.
  - unfold outcome, run, bind at 1 2, save_chain. rewrite Hc.
    rewrite Blockchain_init_fallback.
    + split; reflexivity.
    + right. right. exists (JList []). split; [|reflexivity].
      cbn [disk set_disk]. apply lookup_insert_eq.
  - assert (Hne : chain w <> []) by (rewrite Hc; discriminate).
    split.
    + unfold outcome, bind at 1, save_chain.
      unfold Blockchain_init, load_chain, put_chain, bind at 1 2.
      unfold try_except_load, bind, read_json.
      cbn [disk set_chain set_disk chain ticks wall].
      rewrite lookup_insert_eq. unfold lift, py_iter.
      rewrite for_each_load_complete.
      * cbn [chain app get_chain fst]. rewrite Hc. reflexivity.
      * apply forallb_forall. intros r Hr. apply in_map_iff in Hr as (x & <- & _).
        apply complete_to_dict.
    + rewrite (save_then_load w Hne). cbn [chain]. rewrite <- Hc.
      apply get_vote_counts_fields, rebuilt_tally_fields.
Qed.

(** X4: on a ledger that is not empty, [save_vote] raises nothing, appends
    the one block [add_vote] constructs, leaves the default file holding the
    dicts of the whole chain, and prints one line naming voter, party,
    district and state; constructing the ledger again from that file gives as
    many blocks with the same index, voter hash, state, district, party and
    previous hash. *)
Theorem save_vote_persists (p : Process) (voter_name unique_id : string)
    (s d pa : json) (previous_block : Block) :
  last (chain (machine p)) = Some previous_block ->
  let after := snd (save_vote voter_name unique_id s d pa p) in
  fst (save_vote voter_name unique_id s d pa p) = inr tt
  /\ chain (machine after)
     = chain (machine p)
       ++ [block_at (wall (machine p) (ticks (machine p)))
             (JInt (Z.of_nat (length (chain (machine p)))))
             (JStr (SHA256.hexdigest unique_id)) s d pa
             (JStr (hash previous_block))]
  /\ disk (machine after) !! default_filename
     = Some (Document (JList (List.map to_dict (chain (machine after)))))
  /\ stdout after
     = stdout p ++ ["Vote added: " +:+ voter_name +:+ " voted for "
                    +:+ py_str pa +:+ " in " +:+ py_str d +:+ ", "
                    +:+ py_str s +:+ "."]
  /\ List.map constructor_fields (chain (run Blockchain_init (machine after)))
     = List.map constructor_fields (chain (machine after)).
Proof.
  intros Hlast after. subst after. unfold save_vote.
  rewrite (add_vote_run _ _ _ _ _ _ Hlast).
  match goal with |- context [save_chain default_filename ?x] =>
    set (w1 := x) end.
  cbn [fst snd machine stdout save_chain].
  split; [reflexivity|]. split; [reflexivity|].
  split; [cbn [set_disk disk chain]; apply lookup_insert_eq|].
  split; [reflexivity|].
  change (run Blockchain_init _)
    with (run (exec save_chain default_filename; Blockchain_init) w1).
  rewrite save_then_load.
  - cbn [chain set_disk]. apply rebuilt_constructor_fields.
  - subst w1. cbn [chain]. intros E. apply app_eq_nil in E. destruct E; discriminate.
Qed.

Lemma save_vote_persists_witness :
  let p := mkProcess (run Blockchain_init blank) [] in
  let after := snd (save_vote "Asha" "67890" (JStr "Kerala") (JStr "Ernakulam")
                              (JStr "UDF") p) in
  last (chain (machine p)) = Some (genesis_at (second_clock 0))
  /\ fst (save_vote "Asha" "67890" (JStr "Kerala") (JStr "Ernakulam")
                    (JStr "UDF") p) = inr tt
  /\ chain (machine after)
     = chain (machine p)
       ++ [block_at (wall (machine p) (ticks (machine p)))
             (JInt (Z.of_nat (length (chain (machine p)))))
             (JStr (SHA256.hexdigest "67890")) (JStr "Kerala") (JStr "Ernakulam")
             (JStr "UDF") (JStr (hash (genesis_at (second_clock 0))))]
  /\ disk (machine after) !! default_filename
     = Some (Document (JList (List.map to_dict (chain (machine after)))))
  /\ stdout after
     = stdout p ++ ["Vote added: " +:+ "Asha" +:+ " voted for "
                    +:+ py_str (JStr "UDF") +:+ " in " +:+ py_str (JStr "Ernakulam")
                    +:+ ", " +:+ py_str (JStr "Kerala") +:+ "."]
  /\ List.map constructor_fields (chain (run Blockchain_init (machine after)))
     = List.map constructor_fields (chain (machine after)).
Proof.
  intros p after. split; [reflexivity|].
  apply (save_vote_persists p "Asha" "67890" (JStr "Kerala") (JStr "Ernakulam")
           (JStr "UDF") (genesis_at (second_clock 0))).
  reflexivity.
Defined.

(** ** Validity under the operations *)

Lemma linked_prefix c bs : linked (c ++ bs) -> linked c.
Proof.
  intros H i cur prev Hcur Hprev. apply (H i cur prev).
  - rewrite lookup_app_l; [exact Hcur | eapply lookup_lt_Some; exact Hcur].
  - rewrite lookup_app_l; [exact Hprev | eapply lookup_lt_Some; exact Hprev].
Qed.

Lemma is_chain_valid_agree c c' :
  (linked c <-> linked c') -> is_chain_valid c = is_chain_valid c'.
Proof.
  intros H. pose proof (is_chain_valid_linked c) as Hc.
  pose proof (is_chain_valid_linked c') as Hc'.
  rewrite (is_chain_valid_forallb c), (is_chain_valid_forallb c') in *.
  destruct (forallb (link_ok c) _), (forallb (link_ok c') _); try reflexivity.
  - assert (E : @inr exn bool false = inr true) by (apply Hc', H, Hc; reflexivity).
    discriminate E.
  - assert (E : @inr exn bool false = inr true) by (apply Hc, H, Hc'; reflexivity).
    discriminate E.
Qed.

(** X5: [add_vote] neither checks nor repairs the chain: the answer of
    [is_chain_valid] after the call is the answer before it, true or false. *)
Theorem add_vote_keeps_verdict (w : World) (voter_id : string) (s d p : json) :
  is_chain_valid (chain (run (add_vote voter_id s d p) w))
  = is_chain_valid (chain w).
Proof.
  unfold run. destruct (chain w) as [|b c] eqn:Hc.
  - rewrite (add_vote_run_empty _ _ _ _ _ Hc). cbn [snd chain].
    apply is_chain_valid_agree. split; intros _.
    + intros i cur prev Hcur. discriminate Hcur.
    + apply (linked_snoc [_] (genesis_at (wall w (ticks w))));
        [apply linked_single | reflexivity | reflexivity].
  - destruct (nonempty_last (chain w)) as [prev Hprev]; [rewrite Hc; discriminate|].
    rewrite (add_vote_run _ _ _ _ _ _ Hprev). cbn [snd chain]. rewrite <- Hc.
    apply is_chain_valid_agree. split.
    + apply linked_prefix.
    + intros H. eapply linked_snoc; [exact H | exact Hprev | reflexivity].
Qed.

(** X6: what [is_chain_valid] detects of an edited stored hash: on a chain
    that passes, replacing the stored hash of any block but the last by a
    different text makes the check fail, while replacing the stored hash of
    the last block goes unnoticed. *)
Theorem stored_hash_edit_detection (c : list Block) (k : nat) (b : Block)
    (h : string) :
  is_chain_valid c = inr true ->
  c !! k = Some b ->
  h <> hash b ->
  (S k < length c -> is_chain_valid (<[k := set_hash h b]> c) = inr false)
  /\ (S k = length c -> is_chain_valid (<[k := set_hash h b]> c) = inr true).
Proof.
  intros Hvalid Hk Hne.
  apply is_chain_valid_linked in Hvalid.
  assert (Hlt : k < length c) by (eapply lookup_lt_Some; exact Hk).
  split.
  - intros Hnext.
    destruct (lookup_lt_is_Some_2 c (S k) Hnext) as [cur Hcur].
    apply (is_chain_valid_mismatch _ k cur (set_hash h b)).
    + rewrite list_lookup_insert_ne by lia. exact Hcur.
    + apply list_lookup_insert_eq. exact Hlt.
    + rewrite (Hvalid k cur b Hcur Hk). cbn [hash set_hash]. congruence.
  - intros Hlast. apply is_chain_valid_linked.
    intros i cur prev Hcur Hprev.
    assert (Hi : S i < length c).
    { apply lookup_lt_Some in Hcur. rewrite length_insert in Hcur. exact Hcur. }
    rewrite list_lookup_insert_ne in Hprev by lia.
    destruct (decide (S i = k)) as [E|Hik].
    + subst k. rewrite list_lookup_insert_eq in Hcur by exact Hlt.
      injection Hcur as <-. cbn [previous_hash set_hash].
      exact (Hvalid i b prev Hk Hprev).
    + rewrite list_lookup_insert_ne in Hcur by congruence.
      exact (Hvalid i cur prev Hcur Hprev).
Qed.

Lemma stored_hash_edit_detection_witness :
  let c := chain (run three_votes blank) in
  let b := genesis_at (second_clock 0) in
  (is_chain_valid c = inr true /\ c !! 0 = Some b /\ "00" <> hash b)
  /\ (1 < length c -> is_chain_valid (<[0 := set_hash "00" b]> c) = inr false)
  /\ (1 = length c -> is_chain_valid (<[0 := set_hash "00" b]> c) = inr true).
Proof.
  intros c b.
  assert (H1 : is_chain_valid c = inr true) by (vm_compute; reflexivity).
  assert (H2 : c !! 0 = Some b) by reflexivity.
  assert (H3 : "00" <> hash b).
  { intros E. apply (f_equal String.length) in E.
    assert (L : String.length (hash b) = 64)
      by exact (proj2 (block_at_constructed (second_clock 0) (JInt 0)
                         (JStr "GENESIS") (JStr "None") (JStr "None")
                         (JStr "None") (JStr "0"))).
    rewrite L in E. discriminate E. }
  split; [repeat split; assumption|].
  apply (stored_hash_edit_detection c 0 b "00" H1 H2 H3).
Defined.

Lemma is_vote_positive b z :
  index b = JInt z -> (0 < z)%Z -> is_vote b = true.
Proof.
  intros Hb Hz. unfold is_vote. rewrite Hb. cbn [py_gt0].
  apply Z.ltb_lt in Hz. rewrite Hz. reflexivity.
Qed.

(** X7: [add_vote] keeps no record of who voted: two calls with the same
    identifier on a ledger that is not empty append two blocks with the same
    voter hash, and both are among the blocks [get_vote_counts] counts. *)
Theorem add_vote_accepts_repeated_voter (w : World) (voter_id : string)
    (s d p s' d' p' : json) (previous_block : Block) :
  last (chain w) = Some previous_block ->
  exists b1 b2,
    chain (run (exec add_vote voter_id s d p; add_vote voter_id s' d' p') w)
    = chain w ++ [b1; b2]
    /\ voter_hash b1 = JStr (SHA256.hexdigest voter_id)
    /\ voter_hash b2 = JStr (SHA256.hexdigest voter_id)
    /\ is_vote b1 = true /\ is_vote b2 = true
    /\ outcome (exec add_vote voter_id s d p; add_vote voter_id s' d' p') w
       = inr None.
Proof.
  intros Hlast. unfold run, outcome, bind.
  rewrite (add_vote_run _ _ _ _ _ _ Hlast).
  match goal with |- context [add_vote voter_id s' d' p' ?x] => set (w1 := x) end.
  assert (Hlast1 : last (chain w1)
                   = Some (block_at (wall w (ticks w))
                             (JInt (Z.of_nat (length (chain w))))
                             (JStr (SHA256.hexdigest voter_id)) s d p
                             (JStr (hash previous_block)))).
  { subst w1. cbn [chain]. apply last_snoc. }
  rewrite (add_vote_run _ _ _ _ _ _ Hlast1). subst w1. cbn [fst snd chain ticks wall].
  assert (Hpos : 0 < length (chain w)).
  { destruct (chain w); [discriminate Hlast | cbn; lia]. }
  eexists _, _. rewrite <- app_assoc. cbn [app].
  split; [reflexivity|]. split; [reflexivity|]. split; [reflexivity|].
  split; [|split; [|reflexivity]].
  - eapply is_vote_positive; [reflexivity | lia].
  - eapply is_vote_positive; [reflexivity | rewrite length_app; lia].
Qed.

Lemma add_vote_accepts_repeated_voter_witness :
  let w := run Blockchain_init blank in
  last (chain w) = Some (genesis_at (second_clock 0))
  /\ exists b1 b2,
    chain (run (exec add_vote "12345" (JStr "Kerala") (JStr "Thiruvananthapuram")
                       (JStr "LDF");
                add_vote "12345" (JStr "Kerala") (JStr "Thiruvananthapuram")
                       (JStr "UDF")) w)
    = chain w ++ [b1; b2]
    /\ voter_hash b1 = JStr (SHA256.hexdigest "12345")
    /\ voter_hash b2 = JStr (SHA256.hexdigest "12345")
    /\ is_vote b1 = true /\ is_vote b2 = true
    /\ outcome (exec add_vote "12345" (JStr "Kerala") (JStr "Thiruvananthapuram")
                       (JStr "LDF");
                add_vote "12345" (JStr "Kerala") (JStr "Thiruvananthapuram")
                       (JStr "UDF")) w
       = inr None.
Proof.
  intros w. split; [reflexivity|].
  apply (add_vote_accepts_repeated_voter w "12345" (JStr "Kerala")
           (JStr "Thiruvananthapuram") (JStr "LDF") (JStr "Kerala")
           (JStr "Thiruvananthapuram") (JStr "UDF") (genesis_at (second_clock 0))).
  reflexivity.
Defined.

(** ** More on the tally *)

Lemma bump_total k : forall table,
  list_sum (List.map snd (bump k table)) = S (list_sum (List.map snd table)).
Proof.
  induction table as [|[k1 n] table IH]; [reflexivity|].
  cbn [bump]. destruct (key_compare k k1).
  - reflexivity.
  - reflexivity.
  - change (n + list_sum (List.map snd (bump k table))
            = S (n + list_sum (List.map snd table))).
    rewrite IH. lia.
Qed.

Lemma groupby_size_total : forall ks,
  list_sum (List.map snd (groupby_size ks)) = length ks.
Proof.
  induction ks as [|k ks IH]; [reflexivity|].
  cbn [groupby_size fold_right]. fold (groupby_size ks).
  rewrite bump_total, IH. reflexivity.
Qed.

Lemma keys_of_length : forall votes ks,
  keys_of votes = Some ks -> length ks = length votes.
Proof.
  induction votes as [|b votes IH]; cbn [keys_of]; intros ks.
  - intros [= <-]. reflexivity.
  - destruct (key_of b); [|discriminate].
    destruct (keys_of votes) as [ks0|]; [|discriminate].
    intros [= <-]. cbn [length]. rewrite (IH ks0 eq_refl). reflexivity.
Qed.

Lemma py_gt0_number v :
  match py_gt0 v with
  | inl e => e = TypeError /\ is_number v = false
  | inr _ => is_number v = true
  end.
Proof. destruct v; cbn; auto. Qed.

Lemma vote_blocks_numbers : forall c,
  vote_blocks c
  = if forallb (fun b => is_number (index b)) c
    then inr (List.filter is_vote c)
    else inl TypeError.
Proof.
  induction c as [|b c IH]; [reflexivity|].
  assert (Hb : is_vote b = match py_gt0 (index b) with
                           | inr true => true
                           | _ => false
                           end) by reflexivity.
  cbn [vote_blocks forallb List.filter]. rewrite IH, Hb.
  pose proof (py_gt0_number (index b)) as Hn.
  destruct (py_gt0 (index b)) as [e|keep].
  - destruct Hn as [-> ->]. reflexivity.
  - rewrite Hn. cbn [andb].
    destruct (forallb (fun b0 => is_number (index b0)) c); [|reflexivity].
    destruct keep; reflexivity.
Qed.

Lemma keys_of_text : forall v,
  forallb has_text_key v = true -> exists ks, keys_of v = Some ks.
Proof.
  induction v as [|b v IH]; intros H; [exists []; reflexivity|].
  cbn [forallb] in H. apply andb_true_iff in H as [Hb Hv].
  destruct (IH Hv) as [ks Hks]. unfold has_text_key in Hb.
  cbn [keys_of]. destruct (key_of b) as [k|]; [|discriminate Hb].
  rewrite Hks. exists (k :: ks). reflexivity.
Qed.

(** On a chain whose indexes are numbers and whose counted blocks carry
    text, [get_vote_counts] returns a table. *)
Lemma get_vote_counts_text c :
  forallb (fun b => is_number (index b)) c = true ->
  forallb has_text_key (List.filter is_vote c) = true ->
  exists df, get_vote_counts c = Frame df.
Proof.
  intros Hn Ht. unfold get_vote_counts.
  rewrite vote_blocks_numbers, Hn.
  destruct (keys_of_text _ Ht) as [ks Hks].
  destruct (List.filter is_vote c) as [|b v]; [eexists; reflexivity|].
  rewrite Hks. eexists. reflexivity.
Qed.

(** X8: no vote is lost or counted twice: on a chain whose indexes all
    compare with an int and whose blocks with an index above 0 all carry text
    as state, district and party (what [add_vote] stores from the page),
    [get_vote_counts] returns a table, and its counts add up to the number of
    blocks whose index is above 0. *)
Theorem tally_counts_add_up (c : list Block) :
  forallb (fun b => is_number (index b)) c = true ->
  forallb has_text_key (List.filter is_vote c) = true ->
  exists df,
    get_vote_counts c = Frame df
    /\ list_sum (List.map snd (rows df)) = length (List.filter is_vote c).
Proof.
  intros Hn Ht. destruct (get_vote_counts_text c Hn Ht) as [df H].
  exists df. split; [exact H|].
  destruct (get_vote_counts_frame _ _ H) as [[Hv ->]|(Hv & ks & Hks & ->)];
    cbn [rows].
  - rewrite Hv. reflexivity.
  - rewrite groupby_size_total. apply keys_of_length. exact Hks.
Qed.

Lemma tally_counts_add_up_witness :
  let c := chain (run three_votes blank) in
  (forallb (fun b => is_number (index b)) c = true
   /\ forallb has_text_key (List.filter is_vote c) = true)
  /\ exists df,
    get_vote_counts c = Frame df
    /\ list_sum (List.map snd (rows df)) = length (List.filter is_vote c).
Proof.
  intros c.
  assert (H1 : forallb (fun b => is_number (index b)) c = true)
    by (vm_compute; reflexivity).
  assert (H2 : forallb has_text_key (List.filter is_vote c) = true)
    by (vm_compute; reflexivity).
  split; [split; assumption | apply (tally_counts_add_up c H1 H2)].
Defined.

(** X9: the comprehension of [get_vote_counts] compares every index with
    0 before pandas sees a row: as soon as some block of the chain has an
    index that does not compare with an int (a str, None, a list or a dict,
    which only a file written by hand can bring in), the call raises
    [TypeError], whatever the other fields hold; and when every index is a
    number and the counted blocks carry text as state, district and party, it
    raises nothing. *)
Theorem tally_raises_on_non_numeric_index (c : list Block) :
  ((exists b, In b c /\ is_number (index b) = false) ->
   get_vote_counts c = Raised TypeError)
  /\ (forallb (fun b => is_number (index b)) c = true ->
      forallb has_text_key (List.filter is_vote c) = true ->
      exists df, get_vote_counts c = Frame df).
Proof.
  split; [|apply get_vote_counts_text].
  intros (b & Hb & Hn). unfold get_vote_counts. rewrite vote_blocks_numbers.
  destruct (forallb (fun b0 => is_number (index b0)) c) eqn:E; [|reflexivity].
  rewrite forallb_forall in E. rewrite (E b Hb) in Hn. discriminate Hn.
Qed.

(** ** The tally does not depend on the order of the blocks *)

Lemma votes_for_head k n table :
  ascending ((k, n) :: table) -> votes_for k ((k, n) :: table) = n.
Proof.
  intros H. apply ascending_votes_for; [exact H | left; reflexivity].
Qed.

Lemma votes_for_below k k1 n1 table :
  ascending ((k1, n1) :: table) -> key_lt k k1 ->
  votes_for k ((k1, n1) :: table) = 0.
Proof.
  intros (_ & Hlt & _) Hk. apply votes_for_absent.
  intros k' n' [[= <- <-]|Hin] ->.
  - exact (key_lt_irrefl _ Hk).
  - exact (key_lt_irrefl _ (key_lt_trans _ _ _ Hk (Hlt _ _ Hin))).
Qed.

(** Two tables in key order that give every key the same count are the
    same table. *)
Lemma ascending_unique : forall t t',
  ascending t -> ascending t' ->
  (forall k, votes_for k t = votes_for k t') -> t = t'.
Proof.
  induction t as [|[k1 n1] t IH]; intros [|[k2 n2] t'] Ha Ha' H.
  - reflexivity.
  - specialize (H k2). rewrite (votes_for_head _ _ _ Ha') in H.
    destruct Ha' as (Hn & _). cbn in H. lia.
  - specialize (H k1). rewrite (votes_for_head _ _ _ Ha) in H.
    destruct Ha as (Hn & _). cbn in H. lia.
  - assert (Hk : k1 = k2).
    { destruct (key_compare k1 k2) eqn:E.
      - apply key_compare_eq. exact E.
      - specialize (H k1).
        rewrite (votes_for_head _ _ _ Ha), (votes_for_below _ _ _ _ Ha' E) in H.
        destruct Ha as (Hn & _). lia.
      - apply key_compare_gt in E. specialize (H k2).
        rewrite (votes_for_head _ _ _ Ha'), (votes_for_below _ _ _ _ Ha E) in H.
        destruct Ha' as (Hn & _). lia. }
    subst k2.
    assert (Hn : n1 = n2).
    { specialize (H k1).
      rewrite (votes_for_head _ _ _ Ha), (votes_for_head _ _ _ Ha') in H. exact H. }
    subst n2. f_equal.
    apply IH; [apply Ha | apply Ha' |].
    intros k. specialize (H k). cbn [votes_for] in H. lia.
Qed.

Lemma filter_length_perm {A} (f : A -> bool) (l l' : list A) :
  Permutation l l' -> length (List.filter f l) = length (List.filter f l').
Proof.
  induction 1 as [|x l l' _ IH|x y l|l l' l'' _ IH1 _ IH2]; cbn [List.filter].
  - reflexivity.
  - destruct (f x); cbn [length]; rewrite IH; reflexivity.
  - destruct (f x), (f y); reflexivity.
  - rewrite IH1. exact IH2.
Qed.

Lemma groupby_size_perm ks ks' :
  Permutation ks ks' -> groupby_size ks = groupby_size ks'.
Proof.
  intros H. apply ascending_unique; try apply ascending_groupby_size.
  intros k. rewrite !votes_for_groupby_size. apply filter_length_perm. exact H.
Qed.

Lemma filter_perm {A} (f : A -> bool) (l l' : list A) :
  Permutation l l' -> Permutation (List.filter f l) (List.filter f l').
Proof.
  induction 1 as [|x l l' _ IH|x y l|l l' l'' _ IH1 _ IH2]; cbn [List.filter].
  - constructor.
  - destruct (f x); [constructor|]; exact IH.
  - destruct (f x), (f y); try reflexivity. apply perm_swap.
  - etransitivity; eassumption.
Qed.

Lemma forallb_perm {A} (f : A -> bool) (l l' : list A) :
  Permutation l l' -> forallb f l = forallb f l'.
Proof.
  induction 1 as [|x l l' _ IH|x y l|l l' l'' _ IH1 _ IH2]; cbn [forallb].
  - reflexivity.
  - rewrite IH. reflexivity.
  - destruct (f x), (f y); reflexivity.
  - rewrite IH1. exact IH2.
Qed.

Lemma keys_of_perm v v' :
  Permutation v v' ->
  match keys_of v, keys_of v' with
  | Some ks, Some ks' => Permutation ks ks'
  | None, None => True
  | _, _ => False
  end.
Proof.
  induction 1 as [|x l l' _ IH|x y l|l l' l'' _ IH1 _ IH2]; cbn [keys_of].
  - constructor.
  - destruct (key_of x); [|exact I].
    destruct (keys_of l), (keys_of l'); try contradiction; [|exact I].
    constructor. exact IH.
  - destruct (key_of x), (key_of y), (keys_of l); try exact I. apply perm_swap.
  - destruct (keys_of l), (keys_of l'), (keys_of l''); try contradiction;
      [etransitivity; eassumption | exact I].
Qed.

(** X10: the table does not depend on the order in which the blocks sit in
    the chain: for a chain whose blocks with an index above 0 carry text as
    state, district and party, the same blocks in any other order get the
    same result from [get_vote_counts], rows in the same order included, and
    that result is a table or the [TypeError] of an index that does not
    compare. *)
Theorem tally_ignores_block_order (c c' : list Block) :
  Permutation c c' ->
  forallb has_text_key (List.filter is_vote c) = true ->
  get_vote_counts c = get_vote_counts c'
  /\ get_vote_counts c <> NotText.
Proof.
  intros H Ht. unfold get_vote_counts. rewrite !vote_blocks_numbers.
  rewrite (forallb_perm _ _ _ H).
  destruct (forallb (fun b => is_number (index b)) c');
    [|split; [reflexivity | discriminate]].
  pose proof (filter_perm is_vote _ _ H) as Hv.
  pose proof (keys_of_perm _ _ Hv) as Hk.
  destruct (keys_of_text _ Ht) as [ks0 Hks0].
  destruct (List.filter is_vote c) as [|b v] eqn:E.
  - apply Permutation_nil in Hv. rewrite Hv. split; [reflexivity | discriminate].
  - destruct (List.filter is_vote c') as [|b' v'] eqn:E'.
    + apply Permutation_sym, Permutation_nil in Hv. discriminate Hv.
    + rewrite Hks0 in Hk |- *.
      destruct (keys_of (b' :: v')) as [ks'|]; [|contradiction].
      rewrite (groupby_size_perm _ _ Hk). split; [reflexivity | discriminate].
Qed.

Lemma tally_ignores_block_order_witness :
  let c := chain (run three_votes blank) in
  (Permutation c (List.rev c)
   /\ forallb has_text_key (List.filter is_vote c) = true)
  /\ get_vote_counts c = get_vote_counts (List.rev c)
  /\ get_vote_counts c <> NotText.
Proof.
  intros c.
  assert (H1 : Permutation c (List.rev c)) by apply Permutation_rev.
  assert (H2 : forallb has_text_key (List.filter is_vote c) = true)
    by (vm_compute; reflexivity).
  split; [split; assumption|].
  apply (tally_ignores_block_order c (List.rev c) H1 H2).
Defined.

(** ** More on loading *)

Lemma load_block_not_dict r w :
  (forall m, r <> JDict m) -> load_block r w = (inl TypeError, w).
Proof.
  intros H. destruct r; try reflexivity. elim (H members). reflexivity.
Qed.

(** X11: when the file holds JSON that is not a list of objects (a
    number, true, null, a str or an object that is not empty, or a list whose
    first item is not an object), constructing the ledger raises [TypeError]
    to the caller, which the handler of [load_chain] does not catch; no block
    is constructed and the chain is left empty. *)
Theorem load_raises_on_unreadable_document (w : World) (doc : json) :
  disk w !! default_filename = Some (Document doc) ->
  unreadable doc = true ->
  outcome Blockchain_init w = inl TypeError
  /\ chain (run Blockchain_init w) = []
  /\ ticks (run Blockchain_init w) = ticks w.
Proof.
  intros Hfile Hdoc.
  assert (H : py_iter doc = inl TypeError
              \/ exists r rest, py_iter doc = inr (r :: rest)
                                /\ forall m, r <> JDict m).
  { destruct doc as [| | | |s|items|members]; try (left; reflexivity).
    - destruct s as [|c s]; [discriminate Hdoc|].
      right. eexists _, _. split; [reflexivity | discriminate].
    - destruct items as [|r rest]; [discriminate Hdoc|].
      right. exists r, rest. split; [reflexivity|].
      intros m ->. discriminate Hdoc.
    - destruct members as [|[k x] rest]; [discriminate Hdoc|].
      right. eexists _, _. split; [reflexivity | discriminate]. }
  unfold outcome, run, Blockchain_init, load_chain, put_chain, bind at 1 2.
  unfold try_except_load, bind, read_json. cbn [disk set_chain].
  rewrite Hfile. unfold lift.
  destruct H as [-> | (r & rest & -> & Hr)].
  - repeat split.
  - cbn [for_each]. unfold bind. rewrite (load_block_not_dict _ _ Hr).
    repeat split.
Qed.

Lemma load_raises_on_unreadable_document_witness :
  let w := set_disk (<[default_filename := Document (JInt 7)]> ∅) blank in
  (disk w !! default_filename = Some (Document (JInt 7))
   /\ unreadable (JInt 7) = true)
  /\ outcome Blockchain_init w = inl TypeError
  /\ chain (run Blockchain_init w) = []
  /\ ticks (run Blockchain_init w) = ticks w.
Proof.
  intros w. split; [split; reflexivity|].
  apply (load_raises_on_unreadable_document w (JInt 7)); reflexivity.
Defined.

Lemma rebuilt_read_fields wall : forall rs rs' t,
  List.map read_fields rs = List.map read_fields rs' ->
  rebuilt wall t rs = rebuilt wall t rs'.
Proof.
  induction rs as [|r rs IH]; intros [|r' rs'] t E; try discriminate E;
    [reflexivity|].
  apply map_cons_eq in E as [Er Ers].
  cbn [rebuilt]. rewrite (IH rs' (S t) Ers). f_equal.
  unfold read_fields, required_fields in Er. cbn [List.map] in Er.
  injection Er as E1 E2 E3 E4 E5 E6.
  unfold block_of_record. rewrite E1, E2, E3, E4, E5, E6. reflexivity.
Qed.

(** X12: [load_chain] takes the records as they are: when the file holds a
    list, not empty, of records that each have the six keys, with under each
    of them a number, [None] or text that is well-formed (UTF-8, so without a
    lone surrogate; no list and no dict), constructing the ledger raises
    nothing and leaves one block per record, in order, built from the six
    values of the record at successive clock readings; no genesis block is
    added, nothing checks that the indexes or the links are those of a chain,
    and any other key of a record, such as "timestamp" or "hash", plays no
    part: files that agree on the six values of every record load to the same
    chain. *)
Theorem load_takes_records_as_they_are (w : World) (rs : list json) :
  disk w !! default_filename = Some (Document (JList rs)) ->
  rs <> [] ->
  forallb complete rs = true ->
  forallb (fun r => forallb plain (read_fields r)) rs = true ->
  outcome Blockchain_init w = inr tt
  /\ chain (run Blockchain_init w) = rebuilt (wall w) (ticks w) rs
  /\ length (chain (run Blockchain_init w)) = length rs
  /\ (forall i r, rs !! i = Some r ->
        exists b, chain (run Blockchain_init w) !! i = Some b
                  /\ constructor_fields b
                     = (field r "index", field r "voter_hash", field r "state",
                        field r "district", field r "party",
                        field r "previous_hash")
                  /\ timestamp b = wall w (ticks w + i))
  /\ (forall rs', List.map read_fields rs' = List.map read_fields rs ->
        rebuilt (wall w) (ticks w) rs' = rebuilt (wall w) (ticks w) rs).
Proof.
  intros Hfile Hne Hrs _.
  assert (E : Blockchain_init w
              = (inr tt, mkWorld (rebuilt (wall w) (ticks w) rs)
                           (ticks w + length rs) (wall w) (disk w))).
  { unfold Blockchain_init, load_chain, put_chain, bind at 1 2.
    unfold try_except_load, bind, read_json. cbn [disk set_chain].
    rewrite Hfile. unfold lift, py_iter.
    rewrite (for_each_load_complete _ _ Hrs).
    cbn [chain ticks wall disk app get_chain set_chain].
    destruct rs as [|r rs]; [contradiction | reflexivity]. }
  unfold outcome, run. rewrite E. cbn [fst snd chain].
  split; [reflexivity|]. split; [reflexivity|]. split; [|split].
  - clear. generalize (ticks w). induction rs as [|r rs IH]; intros t;
      [reflexivity | cbn [rebuilt length]; rewrite IH; reflexivity].
  - intros i r Hi. eexists. split; [apply rebuilt_lookup, Hi|].
    split; reflexivity.
  - intros rs' H. apply rebuilt_read_fields. exact H.
Qed.

Lemma load_takes_records_as_they_are_witness :
  let rs := [ JDict [ ("index", JInt 41); ("voter_hash", JStr "ab");
                      ("state", JStr "Kerala"); ("district", JStr "Ernakulam");
                      ("party", JStr "UDF"); ("previous_hash", JStr "zz") ] ] in
  let w := set_disk (<[default_filename := Document (JList rs)]> ∅) blank in
  (disk w !! default_filename = Some (Document (JList rs))
   /\ rs <> [] /\ forallb complete rs = true
   /\ forallb (fun r => forallb plain (read_fields r)) rs = true)
  /\ outcome Blockchain_init w = inr tt
  /\ chain (run Blockchain_init w) = rebuilt (wall w) (ticks w) rs
  /\ length (chain (run Blockchain_init w)) = length rs
  /\ (forall i r, rs !! i = Some r ->
        exists b, chain (run Blockchain_init w) !! i = Some b
                  /\ constructor_fields b
                     = (field r "index", field r "voter_hash", field r "state",
                        field r "district", field r "party",
                        field r "previous_hash")
                  /\ timestamp b = wall w (ticks w + i))
  /\ (forall rs', List.map read_fields rs' = List.map read_fields rs ->
        rebuilt (wall w) (ticks w) rs' = rebuilt (wall w) (ticks w) rs).
Proof.
  intros rs w.
  assert (H1 : disk w !! default_filename = Some (Document (JList rs)))
    by reflexivity.
  assert (H2 : rs <> []) by discriminate.
  assert (H3 : forallb complete rs = true) by reflexivity.
  assert (H4 : forallb (fun r => forallb plain (read_fields r)) rs = true)
    by reflexivity.
  split; [repeat split; assumption|].
  apply (load_takes_records_as_they_are w rs H1 H2 H3 H4).
Defined.

(** X13: [load_chain] resets the chain only after the file was read: called
    on a ledger that already holds blocks while the file is missing or is not
    JSON, it keeps them and appends a genesis block after them; when the last
    block carries a digest as its hash, the chain no longer passes
    [is_chain_valid]. *)
Theorem load_chain_appends_genesis_to_populated_ledger (w : World) (f : string)
    (last_block : Block) :
  disk w !! f = None \/ disk w !! f = Some Unparsable ->
  last (chain w) = Some last_block ->
  String.length (hash last_block) = 64 ->
  outcome (load_chain f) w = inr tt
  /\ chain (run (load_chain f) w) = chain w ++ [genesis_at (wall w (ticks w))]
  /\ is_chain_valid (chain (run (load_chain f) w)) = inr false.
Proof.
  intros Hfile Hlast Hlen.
  assert (E : load_chain f w
              = (inr tt, mkWorld (chain w ++ [genesis_at (wall w (ticks w))])
                           (S (ticks w)) (wall w) (disk w))).
  { unfold load_chain, bind at 1. unfold try_except_load, bind at 1, read_json.
    assert (Hn : Nat.eqb (length (chain w ++ [genesis_at (wall w (ticks w))])) 0
                 = false).
    { rewrite length_app. cbn [length]. apply Nat.eqb_neq. lia. }
    destruct Hfile as [-> | ->]; rewrite create_genesis_block_run;
      unfold bind, get_chain; cbn [chain]; rewrite Hn; reflexivity. }
  unfold outcome, run. rewrite E. cbn [fst snd chain].
  split; [reflexivity|]. split; [reflexivity|].
  assert (Hpos : 0 < length (chain w)).
  { destruct (chain w); [discriminate Hlast | cbn; lia]. }
  rewrite last_lookup in Hlast.
  apply (is_chain_valid_mismatch _ (Nat.pred (length (chain w)))
           (genesis_at (wall w (ticks w))) last_block).
  - replace (S (Nat.pred (length (chain w)))) with (length (chain w)) by lia.
    rewrite lookup_app_r by lia. rewrite Nat.sub_diag. reflexivity.
  - rewrite lookup_app_l by lia. exact Hlast.
  - cbn [previous_hash genesis_at block_at set_hash]. intros [= E0].
    apply (f_equal String.length) in E0. rewrite Hlen in E0. discriminate E0.
Qed.

Lemma load_chain_appends_genesis_to_populated_ledger_witness :
  let w := run Blockchain_init blank in
  (disk w !! default_filename = None
   \/ disk w !! default_filename = Some Unparsable)
  /\ last (chain w) = Some (genesis_at (second_clock 0))
  /\ String.length (hash (genesis_at (second_clock 0))) = 64
  /\ outcome (load_chain default_filename) w = inr tt
  /\ chain (run (load_chain default_filename) w)
     = chain w ++ [genesis_at (wall w (ticks w))]
  /\ is_chain_valid (chain (run (load_chain default_filename) w)) = inr false.
Proof.
  intros w.
  assert (H1 : disk w !! default_filename = None
               \/ disk w !! default_filename = Some Unparsable)
    by (left; reflexivity).
  assert (H2 : last (chain w) = Some (genesis_at (second_clock 0)))
    by reflexivity.
  assert (H3 : String.length (hash (genesis_at (second_clock 0))) = 64)
    by (vm_compute; reflexivity).
  split; [exact H1|]. split; [exact H2|]. split; [exact H3|].
  apply (load_chain_appends_genesis_to_populated_ledger w default_filename
           (genesis_at (second_clock 0)) H1 H2 H3).
Defined.

(** ** The tables of the page *)

Lemma selected_candidate_of_option cs party :
  In party (party_options cs) ->
  exists c, selected_candidate cs party = inr c
            /\ candidate_party c = party /\ In c cs.
Proof.
  intros H. unfold selected_candidate.
  destruct (List.find (fun c => String.eqb (candidate_party c) party) cs)
    as [c|] eqn:E.
  - apply find_some in E as [Hin Heq]. apply String.eqb_eq in Heq.
    exists c. repeat split; assumption.
  - apply in_map_iff in H as (c & Hc & Hin).
    pose proof (find_none _ _ E c Hin) as Hn. cbn in Hn.
    rewrite Hc, String.eqb_refl in Hn. discriminate Hn.
Qed.

(** X14: the two tables of the page fit together: for every identifier
    that [unique_id_mapping] knows, the state and district it names are keys
    of [voting_data], so the lookup of the candidates raises no [KeyError];
    three candidates with three different parties are offered, and for each
    party offered [next] finds the candidate of that party instead of raising
    [StopIteration]. *)
Theorem recognised_voter_has_candidates (unique_id : string) :
  recognised unique_id = true ->
  exists candidates,
    candidates_for unique_id = inr candidates
    /\ length candidates = 3
    /\ NoDup (party_options candidates)
    /\ forall party, In party (party_options candidates) ->
         exists c, selected_candidate candidates party = inr c
                   /\ candidate_party c = party /\ In c candidates.
Proof.
  unfold recognised. intros H. apply andb_true_iff in H as [_ H].
  destruct (unique_id_mapping !! unique_id) as [home|] eqn:E; [|discriminate H].
  unfold unique_id_mapping in E. apply elem_of_list_to_map_2 in E.
  apply list_elem_of_In in E.
  assert (Hnd : forall cs, bool_decide (NoDup (party_options cs)) = true ->
                           NoDup (party_options cs)).
  { intros cs Hb. apply bool_decide_eq_true in Hb. exact Hb. }
  destruct E as [[= <- <-]|[[= <- <-]|[[= <- <-]|[[= <- <-]|[]]]]];
    eexists; (split; [vm_compute; reflexivity|]);
    (split; [reflexivity|]);
    (split; [apply Hnd; vm_compute; reflexivity|]);
    apply selected_candidate_of_option.
Qed.

Lemma recognised_voter_has_candidates_witness :
  recognised "67890" = true
  /\ exists candidates,
    candidates_for "67890" = inr candidates
    /\ length candidates = 3
    /\ NoDup (party_options candidates)
    /\ forall party, In party (party_options candidates) ->
         exists c, selected_candidate candidates party = inr c
                   /\ candidate_party c = party /\ In c candidates.
Proof.
  assert (H : recognised "67890" = true) by (vm_compute; reflexivity).
  split; [exact H | apply (recognised_voter_has_candidates "67890" H)].
Defined.

(** ** What the block hash separates *)

Lemma string_append_assoc a b c : (a +:+ b) +:+ c = a +:+ (b +:+ c).
Proof.
  induction a as [|x a IH]; [reflexivity|].
  change (String x ((a +:+ b) +:+ c) = String x (a +:+ (b +:+ c))).
  rewrite IH. reflexivity.
Qed.

(** X15: [calculate_hash] hashes the seven fields written one after the
    other with nothing between them and each as [str] writes it, so the hash
    does not tell where one field ends and the next begins, nor an int from
    the str of its digits: moving the end of the state to the start of the
    district, or storing the index 7 as the text "7", gives a block with
    different fields and the same hash. *)
Theorem calculate_hash_does_not_separate_fields :
  (forall i t v x y z p ph h h',
     calculate_hash (mkBlock i t v (JStr (x +:+ y)) (JStr z) p ph h)
     = calculate_hash (mkBlock i t v (JStr x) (JStr (y +:+ z)) p ph h'))
  /\ (forall n t v s d p ph h h',
        calculate_hash (mkBlock (JInt n) t v s d p ph h)
        = calculate_hash (mkBlock (JStr (int_str n)) t v s d p ph h'))
  /\ (forall now i v p ph,
        hash (block_at now i v (JStr "Kerala") (JStr "Ernakulam") p ph)
        = hash (block_at now i v (JStr "Keral") (JStr "aErnakulam") p ph)).
Proof.
  split; [|split].
  - intros i t v x y z p ph h h'. unfold calculate_hash.
    cbn [index timestamp voter_hash state district party previous_hash py_str].
    f_equal. f_equal. f_equal. f_equal.
    rewrite <- !string_append_assoc. reflexivity.
  - intros n t v s d p ph h h'. reflexivity.
  - intros now i v p ph. reflexivity.
Qed.
